(** * Autoregressive predictor (package [ar], file ar_model.go)

    A shallow embedding of the AR model predictor and the properties of its
    specification.

    Modelling conventions.
    - [float64] is Rocq's primitive binary64 float ([PrimFloat.float]), so the
      arithmetic of the embedding is IEEE 754 arithmetic, rounding included.
    - Go's [int] has 64 bits and is modelled by [Z].  The integers that are
      computed are slice lengths, indices below a slice length and sums of
      lags, which stay in the range of [int], with two exceptions that the
      caller controls: the length [len(timeValues) + numToPredict] of the
      extended axis and the number [m + 1] in the error of a short series.
      Their wrap-around is written out ([int_add]).
    - [make] panics on a negative length.  The runtime also refuses a slice
      of more than [maxAlloc] bytes, and a run can exhaust the memory of
      its machine; neither is part of the embedding, and the statements
      that assert a result for a positive horizon bound the size of the
      result by [maxAlloc].
    - A slice of floats is a [list float]; indexing outside the slice is a
      run-time panic, which the embedding makes explicit ([outcome]).
    - [mat.Dense] of gonum is a record of its dimensions and its rows.  The
      product is the one of gonum's [Mul] in float arithmetic: the terms of
      an entry are added in the order of the inner index, and a term whose
      left factor is zero is left out.  The LU based [Inverse] of gonum is
      not part of this repository: it is a parameter ([inverse_of]) that
      yields the entries left in the receiver and the error reported.  It
      reports an exactly singular matrix as [mat.Condition] of [+Inf]. *)

From Stdlib Require Import String.
From Stdlib Require Import ZArith List Bool Lia.
From Stdlib Require Import Floats Uint63.
Import Corelib.Init.Datatypes.
Import ListNotations.

Local Open Scope Z_scope.

(* ================================================================== *)
(** ** Run-time outcomes *)

(** A Go computation either returns or panics. *)
Inductive outcome (A : Type) : Type :=
| Done (a : A)
| Panics.

Arguments Done {A} a.
Arguments Panics {A}.

Definition bind {A B : Type} (c : outcome A) (k : A -> outcome B) : outcome B :=
  match c with
  | Done a => k a
  | Panics => Panics
  end.

Declare Scope go_scope.
Delimit Scope go_scope with go.

Notation "x <- c ;; k" := (bind c (fun x => k))
  (at level 100, c at next level, right associativity) : go_scope.
Notation "' p <- c ;; k" := (bind c (fun x => let p := x in k))
  (at level 100, p pattern, c at next level, right associativity) : go_scope.

Local Open Scope go_scope.

(** [for i := lo; i < lo + n; i++ { s = body i s }] *)
Fixpoint for_loop {S : Type} (n : nat) (i : Z) (body : Z -> S -> outcome S)
    (s : S) : outcome S :=
  match n with
  | O => Done s
  | Datatypes.S n' => s' <- body i s ;; for_loop n' (i + 1) body s'
  end.

(** [for i := lo; i < hi; i++ { s = body i s }] *)
Definition for_range {S : Type} (lo hi : Z) (body : Z -> S -> outcome S)
    (s : S) : outcome S :=
  for_loop (Z.to_nat (hi - lo)) lo body s.

(* ================================================================== *)
(** ** Integers *)

(** The range of [int]. *)
Definition min_int : Z := - 2 ^ 63.
Definition max_int : Z := 2 ^ 63 - 1.

Definition is_int (n : Z) : bool := (min_int <=? n) && (n <=? max_int).

(** [a + b] for two ints: the sum, wrapped around into the range of [int].
    Every operand of the program is an int; on other integers the
    definition is the plain sum. *)
Definition int_add (a b : Z) : Z :=
  if is_int a && is_int b then (a + b - min_int) mod 2 ^ 64 + min_int
  else a + b.

(** The most bytes that the runtime allocates at once, on the 64-bit
    platforms with 48 address bits: [make] refuses a slice that takes
    more.  A [float64] takes 8 bytes, a slice header 24. *)
Definition maxAlloc : Z := 2 ^ 48.

(* ================================================================== *)
(** ** Slices *)

Definition len {A : Type} (s : list A) : Z := Z.of_nat (length s).

Fixpoint update {A : Type} (n : nat) (v : A) (s : list A) : list A :=
  match s, n with
  | [], _ => []
  | _ :: t, O => v :: t
  | x :: t, Datatypes.S n' => x :: update n' v t
  end.

Definition in_range {A : Type} (s : list A) (i : Z) : bool :=
  (0 <=? i) && (i <? len s).

(** [s[i]] *)
Definition index {A : Type} (d : A) (s : list A) (i : Z) : outcome A :=
  if in_range s i then Done (nth (Z.to_nat i) s d) else Panics.

(** [s[i] = v] *)
Definition assign {A : Type} (s : list A) (i : Z) (v : A) : outcome (list A) :=
  if in_range s i then Done (update (Z.to_nat i) v s) else Panics.

(** [make([]T, n)]: [n] zero values; a negative length panics. *)
Definition make {A : Type} (zero : A) (n : Z) : outcome (list A) :=
  if n <? 0 then Panics else Done (repeat zero (Z.to_nat n)).

(** [copy(dst, src)]: the first [min(len(dst), len(src))] elements. *)
Definition copy {A : Type} (dst src : list A) : list A :=
  firstn (length dst) src ++ skipn (length src) dst.

(** [s[lo:]] *)
Definition slice_from {A : Type} (s : list A) (lo : Z) : outcome (list A) :=
  if (0 <=? lo) && (lo <=? len s) then Done (skipn (Z.to_nat lo) s) else Panics.

(** [float64(n)] for an [int] [n]. *)
Definition float64 (n : Z) : float :=
  if n <? 0 then (- of_uint63 (Uint63.of_Z (- n)))%float
  else of_uint63 (Uint63.of_Z n).

Abbreviation fidx := (index 0%float).
Abbreviation fmake := (make 0%float).

(* ================================================================== *)
(** ** Errors *)

Inductive fmt_arg : Type :=
| ArgInt (n : Z)
| ArgFloat (x : float).

(** The error values met by the package: [mat.ErrSingular]; [mat.Condition],
    the error gonum documents for the inverse of an ill-conditioned matrix;
    the errors made by [fmt.Errorf] from a format and its arguments, and
    those that wrap another error with the verb [%w]. *)
Inductive error : Type :=
| ErrSingular
| Condition (cond : float)
| Errorf (format : string) (args : list fmt_arg)
| Wrapf (format : string) (cause : error).

(** [err != mat.ErrSingular] *)
Definition is_ErrSingular (e : error) : bool :=
  match e with
  | ErrSingular => true
  | _ => false
  end.

(* ================================================================== *)
(** ** The data model *)

Record ModelParameters : Type := mkModelParameters {
  AutoregressiveLags : Z;
  ExternalInputLags : Z;
  StepSize : float
}.

Record Predictor : Type := mkPredictor {
  Data : list (list float);
  Params : ModelParameters
}.

Definition NewPredictor (data : list (list float)) (params : ModelParameters)
    : option Predictor * option error :=
  if (AutoregressiveLags params <=? 0) || (ExternalInputLags params <? 0) then
    (None,
     Some (Errorf "lags must be positive integers, autoregressive lags: %d, external input lags: %d"%string
             [ArgInt (AutoregressiveLags params); ArgInt (ExternalInputLags params)]))
  else if (StepSize params <=? 0)%float then
    (None,
     Some (Errorf "step size must be a positive number, step size: %f"%string
             [ArgFloat (StepSize params)]))
  else (Some (mkPredictor data params), None).

(** [extendTimeValues], on values. *)
Definition extendTimeValues (timeValues : list float) (numToPredict : Z)
    (stepSize : float) : outcome (list float) :=
  pl <- fmake (int_add (len timeValues) numToPredict) ;;
  let pl := copy pl timeValues in
  lastTimeValue <- fidx timeValues (len timeValues - 1) ;;
  for_range 0 numToPredict
    (fun i pl =>
       assign pl (len timeValues + i)
         (lastTimeValue + float64 (i + 1) * stepSize)%float)
    pl.


(* ================================================================== *)
(** ** Matrices of gonum *)

(** [mat.Dense]: the dimensions and the rows. *)
Record Dense : Type := mkDense {
  Rows : Z;
  Cols : Z;
  Elems : list (list float)
}.

(** [m.Dims()] *)
Definition Dims (m : Dense) : Z * Z := (Rows m, Cols m).

Definition elem (m : Dense) (i j : Z) : float :=
  nth (Z.to_nat j) (nth (Z.to_nat i) (Elems m) []) 0%float.

(** [mat.NewDense(r, c, nil)]: the zero matrix; panics unless both
    dimensions are positive. *)
Definition NewDense (r c : Z) : outcome Dense :=
  if (r <=? 0) || (c <=? 0) then Panics
  else Done (mkDense r c (repeat (repeat 0%float (Z.to_nat c)) (Z.to_nat r))).

(** [mat.NewDense(r, 1, data)]: the column that holds [data]; panics unless
    [len(data) = r]. *)
Definition column (r : Z) (data : list float) : Dense :=
  mkDense r 1 (map (fun v => [v]) data).

Definition NewColumn (r : Z) (data : list float) : outcome Dense :=
  if (r <=? 0) || negb (len data =? r) then Panics
  else Done (column r data).

(** [m.At(i, j)] *)
Definition At (m : Dense) (i j : Z) : outcome float :=
  if (0 <=? i) && (i <? Rows m) && (0 <=? j) && (j <? Cols m)
  then Done (elem m i j) else Panics.

(** [th.At(i, j)] through a pointer, which may be nil. *)
Definition At_ptr (th : option Dense) (i j : Z) : outcome float :=
  match th with
  | Some m => At m i j
  | None => Panics
  end.

(** [m.SetRow(i, src)] *)
Definition SetRow (m : Dense) (i : Z) (src : list float) : outcome Dense :=
  if (0 <=? i) && (i <? Rows m) && (len src =? Cols m)
  then Done (mkDense (Rows m) (Cols m) (update (Z.to_nat i) src (Elems m)))
  else Panics.

(** The integers [lo], [lo + 1], ..., [lo + n - 1]. *)
Fixpoint zrange (lo : Z) (n : nat) : list Z :=
  match n with
  | O => []
  | Datatypes.S n' => lo :: zrange (lo + 1) n'
  end.

(** [m.T()] *)
Definition T (m : Dense) : Dense :=
  mkDense (Cols m) (Rows m)
    (map (fun j => map (fun i => elem m i j) (zrange 0 (Z.to_nat (Rows m))))
       (zrange 0 (Z.to_nat (Cols m)))).

(** The entry [(i, j)] of a product, as the kernels of gonum's [Mul]
    compute it when the right factor is not transposed: from zero, the terms
    are added in the order of the inner index, and a term whose left factor
    is zero is skipped ([if tmp != 0]). *)
Definition dot (a b : Dense) (i j : Z) : float :=
  fold_left
    (fun s k =>
       if (elem a i k =? 0)%float then s
       else (s + elem a i k * elem b k j)%float)
    (zrange 0 (Z.to_nat (Cols a))) 0%float.

(** The product of two matrices. *)
Definition product (a b : Dense) : Dense :=
  mkDense (Rows a) (Cols b)
    (map (fun i => map (fun j => dot a b i j) (zrange 0 (Z.to_nat (Cols b))))
       (zrange 0 (Z.to_nat (Rows a)))).

(** [recv.Mul(a, b)]: panics unless the shapes of [a], [b] and of the
    receiver agree. *)
Definition Mul (recv a b : Dense) : outcome Dense :=
  if (Cols a =? Rows b) && (Rows recv =? Rows a) && (Cols recv =? Cols b)
  then Done (product a b) else Panics.

(* ================================================================== *)
(** ** The design matrix *)

(** The first inner loop of [constructPhiMatrix]. *)
Definition phi_row_values (dataValues : list float) (na actualIndex : Z)
    (row : list float) : outcome (list float) :=
  for_range 1 (na + 1)
    (fun j row =>
       if actualIndex - j >=? 0 then
         y <- fidx dataValues (actualIndex - j) ;;
         assign row (j - 1) (- y)%float
       else Done row)
    row.

(** The second inner loop of [constructPhiMatrix]. *)
Definition phi_row_inputs (timeValues : list float) (na nb actualIndex : Z)
    (row : list float) : outcome (list float) :=
  for_range 0 (nb + 1)
    (fun j row =>
       if actualIndex - j >=? 0 then
         p <- fidx timeValues (actualIndex - j) ;;
         assign row (na + j) p
       else Done row)
    row.

(** [constructPhiMatrix]; [None] is the nil matrix. *)
Definition constructPhiMatrix (dataValues timeValues : list float)
    (na nb m : Z) : outcome (option Dense) :=
  let dim := na + nb + 1 in
  let numRows := len dataValues - m in
  if numRows <=? 0 then Done None
  else
    phi <- NewDense numRows dim ;;
    phi <- for_range 0 numRows
             (fun i phi =>
                row <- fmake dim ;;
                let actualIndex := i + m in
                row <- phi_row_values dataValues na actualIndex row ;;
                row <- phi_row_inputs timeValues na nb actualIndex row ;;
                SetRow phi i row)
             phi ;;
    Done (Some phi).

(* ================================================================== *)
(** ** The recursive forecaster *)

(** The autoregressive part of one step of [performPrediction]. *)
Definition ar_part (yAp : list float) (th : option Dense) (na i : Z)
    (sum : float)
    : outcome float :=
  for_range 1 (na + 1)
    (fun j sum =>
       if i - j >=? 0 then
         y <- fidx yAp (i - j) ;;
         t <- At_ptr th (j - 1) 0 ;;
         Done (sum - y * t)%float
       else Done sum)
    sum.

(** The external input part of one step of [performPrediction]. *)
Definition input_part (pl : list float) (th : option Dense) (na nb i : Z)
    (sum : float) : outcome float :=
  for_range 0 (nb + 1)
    (fun j sum =>
       if i - j >=? 0 then
         p <- fidx pl (i - j) ;;
         t <- At_ptr th (na + j) 0 ;;
         Done (sum + p * t)%float
       else Done sum)
    sum.

Definition performPrediction (dataValues pl : list float) (th : option Dense)
    (m na nb : Z) : outcome (list float) :=
  yAp <- fmake (len pl) ;;
  let yAp := copy yAp dataValues in
  for_range (m + 1) (len pl)
    (fun i yAp =>
       let sum := 0%float in
       sum <- ar_part yAp th na i sum ;;
       sum <- input_part pl th na nb i sum ;;
       assign yAp i sum)
    yAp.

(* ================================================================== *)
(** ** The estimator and the predictor *)

Section Estimation.

(** The inversion routine of gonum: for a square matrix, the entries it
    leaves in the receiver and the error it reports. *)
Variable inverse_of : Dense -> list (list float) * option error.

(** What the routine leaves in a receiver of the shape of [a]. *)
Definition inverse_matrix (a : Dense) : Dense :=
  mkDense (Rows a) (Cols a) (fst (inverse_of a)).

(** [recv.Inverse(a)]: panics unless [a] is square and the receiver has
    its shape. *)
Definition Inverse (recv a : Dense) : outcome (Dense * option error) :=
  if negb (Rows a =? Cols a) then Panics
  else if negb ((Rows recv =? Rows a) && (Cols recv =? Cols a)) then Panics
  else Done (inverse_matrix a, snd (inverse_of a)).

(** [err != nil && err != mat.ErrSingular] *)
Definition fatal (err : option error) : option error :=
  match err with
  | Some e => if is_ErrSingular e then None else Some e
  | None => None
  end.

Definition calculateTheta (phi : Dense) (dataValues : list float)
    : outcome (option Dense * option error) :=
  let '(rows, cols) := Dims phi in
  y <- fmake rows ;;
  tail <- slice_from dataValues (len dataValues - rows) ;;
  let y := copy y tail in
  let phiT := T phi in
  phiTphi <- NewDense cols cols ;;
  phiTphi <- Mul phiTphi phiT phi ;;
  phiTP <- NewDense cols 1 ;;
  yVec <- NewColumn rows y ;;
  phiTP <- Mul phiTP phiT yVec ;;
  phiTphiInv <- NewDense cols cols ;;
  r <- Inverse phiTphiInv phiTphi ;;
  let '(phiTphiInv, err) := r in
  match fatal err with
  | Some e => Done (None, Some (Wrapf "matrix inversion failed: %w" e))
  | None =>
      th <- NewDense cols 1 ;;
      th <- Mul th phiTphiInv phiTP ;;
      Done (Some th, err)
  end.

(** The loop of [Predict] that separates the two columns of the data. *)
Fixpoint separate (rows : list (list float)) (i : Z)
    (dataValues timeValues : list float)
    : outcome (list float * list float) :=
  match rows with
  | [] => Done (dataValues, timeValues)
  | row :: rest =>
      y <- fidx row 0 ;;
      dataValues <- assign dataValues i y ;;
      p <- fidx row 1 ;;
      timeValues <- assign timeValues i p ;;
      separate rest (i + 1) dataValues timeValues
  end.

(** The loop of [Predict] that pairs the inputs with the values. *)
Definition combine_result (pl yAp : list float) (result : list (list float))
    : outcome (list (list float)) :=
  for_range 0 (len pl)
    (fun i result =>
       x <- fidx pl i ;;
       y <- fidx yAp i ;;
       assign result i [x; y])
    result.

Definition Predict (p : Predictor) (numToPredict : Z)
    : outcome (option (list (list float)) * option error) :=
  let na := AutoregressiveLags (Params p) in
  let nb := ExternalInputLags (Params p) in
  let stepSize := StepSize (Params p) in
  let m := Z.max na nb in
  if len (Data p) <=? m then
    Done (None,
          Some (Errorf "not enough data points for prediction, need at least %d points"
                  [ArgInt (int_add m 1)]))
  else
    timeValues <- fmake (len (Data p)) ;;
    dataValues <- fmake (len (Data p)) ;;
    cols <- separate (Data p) 0 dataValues timeValues ;;
    let '(dataValues, timeValues) := cols in
    pl <- extendTimeValues timeValues numToPredict stepSize ;;
    phi <- constructPhiMatrix dataValues timeValues na nb m ;;
    match phi with
    | None => Done (None, Some (Errorf "failed to construct phi matrix" []))
    | Some phi =>
        r <- calculateTheta phi dataValues ;;
        let '(th, err) := r in
        match fatal err with
        | Some e => Done (None, Some (Wrapf "error calculating theta: %w" e))
        | None =>
            yAp <- performPrediction dataValues pl th m na nb ;;
            result <- make [] (len pl) ;;
            result <- combine_result pl yAp result ;;
            Done (Some result, err)
        end
    end.

(** *** The quantities of the specification *)

(** The last [r] entries of the value series. *)
Definition yTail (r : Z) (Y : list float) : list float :=
  skipn (Z.to_nat (len Y - r)) Y.

(** [phi^T * phi] and [phi^T * yTail]. *)
Definition normal_matrix (phi : Dense) : Dense := product (T phi) phi.

Definition normal_rhs (phi : Dense) (Y : list float) : Dense :=
  product (T phi) (column (Rows phi) (yTail (Rows phi) Y)).

(** The coefficients: what the inversion routine leaves for the inverse of
    [phi^T * phi], times [phi^T * yTail]. *)
Definition theta_of (phi : Dense) (Y : list float) : Dense :=
  product (inverse_matrix (normal_matrix phi)) (normal_rhs phi Y).

(** The two columns of the data. *)
Definition values (data : list (list float)) : list float :=
  map (fun row => nth 0 row 0%float) data.

Definition inputs (data : list (list float)) : list float :=
  map (fun row => nth 1 row 0%float) data.

(** The design matrix of a predictor. *)
Definition design (p : Predictor) : outcome (option Dense) :=
  constructPhiMatrix (values (Data p)) (inputs (Data p))
    (AutoregressiveLags (Params p)) (ExternalInputLags (Params p))
    (Z.max (AutoregressiveLags (Params p)) (ExternalInputLags (Params p))).

(** The error that the inversion routine reports for the predictor's
    [phi^T * phi]. *)
Definition inversion_error (p : Predictor) : option error :=
  match design p with
  | Done (Some phi) => snd (inverse_of (normal_matrix phi))
  | _ => None
  end.

End Estimation.

(* ================================================================== *)
(** ** Reading the results *)

(** The entry of a slice at an index, for the statements. *)
Definition entry (s : list float) (i : Z) : float := nth (Z.to_nat i) s 0%float.

(** The rows [[pl[i], yAp[i]]] of a forecast. *)
Definition pairs (pl yAp : list float) : list (list float) :=
  map (fun i => [entry pl i; entry yAp i]) (zrange 0 (length pl)).

(** What [NewPredictor] rejects. *)
Definition invalid (params : ModelParameters) : Prop :=
  AutoregressiveLags params <= 0 \/ ExternalInputLags params < 0 \/
  (StepSize params <=? 0)%float = true.


(** What the specification calls valid parameters. *)
Definition valid (params : ModelParameters) : Prop :=
  0 < AutoregressiveLags params /\ 0 <= ExternalInputLags params /\
  (0 <? StepSize params)%float = true.

(** The sum of a list of floats, added from the left, from [0]. *)
Definition fsum_from (s : float) (terms : list float) : float :=
  fold_left (fun s x => (s + x)%float) terms s.

(** The terms [-theta[j-1] * yAp[i-j]] for [j = 1..na] with [i - j >= 0]. *)
Definition ar_terms (theta : Dense) (yAp : list float) (na i : Z) : list float :=
  map (fun j => (- elem theta (j - 1) 0 * entry yAp (i - j))%float)
    (filter (fun j => i - j >=? 0) (zrange 1 (Z.to_nat na))).

(** The terms [theta[na+j] * pl[i-j]] for [j = 0..nb] with [i - j >= 0]. *)
Definition input_terms (theta : Dense) (pl : list float) (na nb i : Z)
    : list float :=
  map (fun j => (elem theta (na + j) 0 * entry pl (i - j))%float)
    (filter (fun j => i - j >=? 0) (zrange 0 (Z.to_nat (nb + 1)))).

(** The right-hand side of the recurrence of the forecaster at index [i]:
    the terms of the two sums, added in this order. *)
Definition recurrence (theta : Dense) (yAp pl : list float) (na nb i : Z)
    : float :=
  fsum_from (fsum_from 0%float (ar_terms theta yAp na i))
    (input_terms theta pl na nb i).

(** The sum [x 0 * y 0 + ... + x (n - 1) * y (n - 1)] of the normal
    equations in float arithmetic: from zero, in the order of the index,
    without the terms whose left factor is zero. *)
Fixpoint sum_of_products (x y : Z -> float) (n : nat) : float :=
  match n with
  | O => 0%float
  | Datatypes.S n' =>
      let s := sum_of_products x y n' in
      if (x (Z.of_nat n') =? 0)%float then s
      else (s + x (Z.of_nat n') * y (Z.of_nat n'))%float
  end.

(* ================================================================== *)
(** ** Slices with their backing arrays *)

(** [extendTimeValues] once more, on a store of backing arrays, to state
    that its result shares no memory with its argument. *)
Module Store.

(** The backing arrays, in the order of their allocation. *)
Definition heap : Type := list (list float).

(** A slice: its backing array, where it starts in it, and its length. *)
Record slice : Type := mkSlice {
  base : nat;
  start : nat;
  size : nat
}.

Definition backing (h : heap) (s : slice) : list float := nth (base s) h [].

Definition wf (h : heap) (s : slice) : Prop :=
  (base s < length h)%nat /\ (start s + size s <= length (backing h s))%nat.

(** The elements of a slice. *)
Definition contents (h : heap) (s : slice) : list float :=
  firstn (size s) (skipn (start s) (backing h s)).

Definition slen (s : slice) : Z := Z.of_nat (size s).

(** [s[i]] *)
Definition load (h : heap) (s : slice) (i : Z) : outcome float :=
  if (0 <=? i) && (i <? slen s)
  then Done (nth (start s + Z.to_nat i) (backing h s) 0%float) else Panics.

(** [s[i] = v] *)
Definition store (h : heap) (s : slice) (i : Z) (v : float) : outcome heap :=
  if (0 <=? i) && (i <? slen s)
  then Done (update (base s) (update (start s + Z.to_nat i) v (backing h s)) h)
  else Panics.

(** [make([]float64, n)]: a slice on a new backing array. *)
Definition make (n : Z) (h : heap) : outcome (slice * heap) :=
  if n <? 0 then Panics
  else Done (mkSlice (length h) 0 (Z.to_nat n),
             h ++ [repeat 0%float (Z.to_nat n)]).

(** [copy(dst, src)] *)
Definition copy (dst src : slice) (h : heap) : heap :=
  update (base dst)
    (firstn (start dst) (backing h dst)
       ++ copy (contents h dst) (contents h src)
       ++ skipn (start dst + size dst) (backing h dst))
    h.

Definition extendTimeValues (timeValues : slice) (numToPredict : Z)
    (stepSize : float) (h : heap) : outcome (slice * heap) :=
  r <- make (int_add (slen timeValues) numToPredict) h ;;
  let '(pl, h) := r in
  let h := copy pl timeValues h in
  lastTimeValue <- load h timeValues (slen timeValues - 1) ;;
  h <- for_range 0 numToPredict
         (fun i h =>
            store h pl (slen timeValues + i)
              (lastTimeValue + float64 (i + 1) * stepSize)%float)
         h ;;
  Done (pl, h).

End Store.

(* ================================================================== *)
(** ** The entries of the design matrix, as the specification gives them *)

(** Column [k] of the row for the original index [t]: the negated lagged
    values in the columns [0..na), the lagged inputs in the columns
    [na..na+nb], and [0] where the lag reaches before the series. *)
Definition phi_entry (Y P : list float) (na nb t k : Z) : float :=
  if k <? na then
    if t - (k + 1) >=? 0 then (- entry Y (t - (k + 1)))%float else 0%float
  else if k <=? na + nb then
    if t - (k - na) >=? 0 then entry P (t - (k - na)) else 0%float
  else 0%float.

(** The forecast series after the seed step of [performPrediction]: the
    historical values over a zeroed series as long as the input axis. *)
Definition seeded (dataValues pl : list float) : list float :=
  copy (repeat 0%float (length pl)) dataValues.

(* ================================================================== *)
(** ** An inversion routine for the examples *)

(** The adjugate formula for a 2 x 2 matrix; a zero determinant is reported
    with the error [singular]. *)
Definition inverse_2x2 (singular : error) (a : Dense)
    : list (list float) * option error :=
  let det := (elem a 0 0 * elem a 1 1 - elem a 0 1 * elem a 1 0)%float in
  if (det =? 0)%float then ([[0; 0]; [0; 0]]%float, Some singular)
  else ([[elem a 1 1 / det; - elem a 0 1 / det];
         [- elem a 1 0 / det; elem a 0 0 / det]]%float, None).

(** Gauss-Jordan elimination with partial pivoting, for the examples with
    larger matrices.  The rows are those of [a | I]; a column without a
    pivot is reported as [mat.Condition] of [+Inf]. *)
Definition pivot_row (rows : list (list float)) (n k : nat) : nat :=
  fold_left
    (fun p i =>
       if (abs (nth k (nth p rows []) 0) <? abs (nth k (nth i rows []) 0))%float
       then i else p)
    (seq k (n - k)) k.

Definition eliminate (rows : list (list float)) (n k : nat)
    : option (list (list float)) :=
  let p := pivot_row rows n k in
  let pivot := nth k (nth p rows []) 0%float in
  if (pivot =? 0)%float then None
  else
    let swapped := update p (nth k rows []) (update k (nth p rows []) rows) in
    let prow := map (fun x => (x / pivot)%float) (nth k swapped []) in
    Some (map (fun ir =>
                 if (fst ir =? k)%nat then prow
                 else map (fun xy => (fst xy - nth k (snd ir) 0 * snd xy)%float)
                        (combine (snd ir) prow))
            (combine (seq 0 n) swapped)).

Fixpoint gauss_jordan (rows : list (list float)) (n steps k : nat)
    : option (list (list float)) :=
  match steps with
  | O => Some rows
  | Datatypes.S steps' =>
      match eliminate rows n k with
      | Some rows' => gauss_jordan rows' n steps' (Datatypes.S k)
      | None => None
      end
  end.

Definition inverse_gauss (a : Dense) : list (list float) * option error :=
  let n := Z.to_nat (Rows a) in
  let augmented :=
    map (fun i =>
           map (fun j => elem a i j) (zrange 0 n)
             ++ map (fun j => if i =? j then 1%float else 0%float) (zrange 0 n))
      (zrange 0 n) in
  match gauss_jordan augmented n n O with
  | Some rows => (map (skipn n) rows, None)
  | None => (repeat (repeat 0%float n) n, Some (Condition infinity))
  end.

(** Stand-ins for the examples: the square for [math.Pow(x, 2)], the first
    terms of its series for [math.Cos], and the scalar product added in the
    order of the index for [DotUnitary]. *)
Definition square_pow (x y : float) : float := (x * x)%float.

Definition series_cos (x : float) : float :=
  (1 - x * x / 2 + x * x * x * x / 24)%float.

Definition scalar_product (x y : list float) : float :=
  fold_left (fun s xy => (s + fst xy * snd xy)%float) (combine x y) 0%float.

(* ================================================================== *)
(** ** The least-squares predictor (ls_model.go) *)

(** The sibling predictor fits the fixed basis [p^2, p, 1, cos p] to the
    series.  [math.Pow], [math.Cos], the inversion routine of gonum and its
    kernel for the scalar product of two rows are parameters; [separate],
    [extendTimeValues] and the matrices are those of the autoregressive
    predictor. *)
Module LS.

Record LSModelParameters : Type := mkLSModelParameters {
  StepSize : float
}.

Record LSPredictor : Type := mkLSPredictor {
  Data : list (list float);
  Params : LSModelParameters
}.

Definition NewLSPredictor (data : list (list float))
    (params : LSModelParameters) : option LSPredictor * option error :=
  if (StepSize params <=? 0)%float then
    (None,
     Some (Errorf "step size must be a positive number, step size: %f"%string
             [ArgFloat (StepSize params)]))
  else (Some (mkLSPredictor data params), None).

(** [m.Set(i, j, v)] *)
Definition Set_ (m : Dense) (i j : Z) (v : float) : outcome Dense :=
  if (0 <=? i) && (i <? Rows m) && (0 <=? j) && (j <? Cols m)
  then Done (mkDense (Rows m) (Cols m)
               (update (Z.to_nat i)
                  (update (Z.to_nat j) v (nth (Z.to_nat i) (Elems m) []))
                  (Elems m)))
  else Panics.

(** [var m mat.Dense; m.Mul(a, b)], for a right factor that is not a
    transpose: an empty receiver takes the shape of the product; panics
    unless the shapes of [a] and [b] agree. *)
Definition MulNew (a b : Dense) : outcome Dense :=
  if Cols a =? Rows b then Done (product a b) else Panics.

Section Basis.

Variable Pow : float -> float -> float.
Variable Cos : float -> float.

(** [f64.DotUnitary(x, y)], the kernel of gonum for the scalar product of
    two rows: an assembly routine, which does not add the terms in the
    order of the index. *)
Variable DotUnitary : list float -> list float -> float.

Variable inverse_of : Dense -> list (list float) * option error.

(** The product of [a] and the transpose of [b]: with a transposed right
    factor, [Mul] adds [DotUnitary] of the row [i] of [a] and the row [j]
    of [b] to the zero in the entry [(i, j)] of its receiver. *)
Definition productT (a b : Dense) : Dense :=
  mkDense (Rows a) (Rows b)
    (map (fun i =>
            map (fun j =>
                   (0 + 1 * DotUnitary (nth (Z.to_nat i) (Elems a) [])
                              (nth (Z.to_nat j) (Elems b) []))%float)
              (zrange 0 (Z.to_nat (Rows b))))
       (zrange 0 (Z.to_nat (Rows a)))).

(** [var m mat.Dense; m.Mul(a, b.T())]: panics unless the rows of [a] and
    of [b] have the same length. *)
Definition MulNewT (a b : Dense) : outcome Dense :=
  if Cols a =? Cols b then Done (productT a b) else Panics.

(** [var m mat.Dense; m.Inverse(a)]: panics unless [a] is square. *)
Definition InverseNew (a : Dense) : outcome (Dense * option error) :=
  if negb (Rows a =? Cols a) then Panics
  else Done (inverse_matrix inverse_of a, snd (inverse_of a)).

(** The loops of [Predict] that fill the matrices [A] and [Atest]. *)
Definition fill_basis (P : list float) (A : Dense) : outcome Dense :=
  for_range 0 (len P)
    (fun i A =>
       p <- fidx P i ;;
       A <- Set_ A i 0 (Pow p 2) ;;
       p <- fidx P i ;;
       A <- Set_ A i 1 p ;;
       A <- Set_ A i 2 1 ;;
       p <- fidx P i ;;
       Set_ A i 3 (Cos p))
    A.

(** The loop of [Predict] that pairs the inputs with the fitted values. *)
Definition collect (Pl : list float) (yAp : Dense)
    (result : list (list float)) : outcome (list (list float)) :=
  for_range 0 (len Pl)
    (fun i result =>
       x <- fidx Pl i ;;
       y <- At yAp i 0 ;;
       assign result i [x; y])
    result.

(** [At] is the transpose of [A]: the left factor of the first product, and
    the right factor of the second one, which [MulNewT] takes as [A]. *)
Definition Predict (p : LSPredictor) (numToPredict : Z)
    : outcome (option (list (list float)) * option error) :=
  timeValues <- fmake (len (Data p)) ;;
  dataValues <- fmake (len (Data p)) ;;
  cols <- separate (Data p) 0 dataValues timeValues ;;
  let '(dataValues, timeValues) := cols in
  let P := timeValues in
  let Y := dataValues in
  Pl <- extendTimeValues timeValues numToPredict (StepSize (Params p)) ;;
  A <- NewDense (len P) 4 ;;
  A <- fill_basis P A ;;
  Atest <- NewDense (len Pl) 4 ;;
  Atest <- fill_basis Pl Atest ;;
  let AT := T A in
  ATA <- MulNew AT A ;;
  r <- InverseNew ATA ;;
  let '(ATAInv, err) := r in
  match err with
  | Some e =>
      Done (Some [], Some (Wrapf "error inverting ATA matrix: %w" e))
  | None =>
      AtAInvAt <- MulNewT ATAInv A ;;
      YMatrix <- NewColumn (len Y) Y ;;
      th <- MulNew AtAInvAt YMatrix ;;
      yAp <- MulNew Atest th ;;
      result <- make [] (len Pl) ;;
      result <- collect Pl yAp result ;;
      Done (Some result, None)
  end.

(** The matrix of the basis functions at the inputs [P]. *)
Definition basis (P : list float) : Dense :=
  mkDense (len P) 4 (map (fun p => [Pow p 2; p; 1%float; Cos p]) P).

End Basis.

End LS.

(* ================================================================== *)
(** ** Integers: basic facts *)

Lemma int_add_exact (a b : Z) :
  min_int <= a + b <= max_int -> int_add a b = a + b.
Proof.
  intros H. unfold int_add. destruct (is_int a && is_int b); [|reflexivity].
  unfold min_int, max_int in *. rewrite Z.mod_small; lia.
Qed.

(** A length and an int that is not positive: their sum is an int. *)
Lemma int_add_nonpos (a b : Z) :
  0 <= a -> b <= 0 -> int_add a b = a + b.
Proof.
  intros Ha Hb. unfold int_add, is_int.
  destruct ((min_int <=? a) && (a <=? max_int)) eqn:Ea; [|reflexivity].
  destruct ((min_int <=? b) && (b <=? max_int)) eqn:Eb; [|reflexivity].
  apply andb_true_iff in Ea, Eb. cbn [andb].
  unfold min_int, max_int in *. rewrite Z.mod_small; lia.
Qed.

(** A sum that passes the largest int is negative. *)
Lemma int_add_overflow (a b : Z) :
  0 <= a <= max_int -> 0 <= b <= max_int -> max_int < a + b ->
  int_add a b = a + b - 2 ^ 64 /\ int_add a b < 0.
Proof.
  intros Ha Hb H. unfold int_add, is_int.
  replace ((min_int <=? a) && (a <=? max_int)) with true
    by (symmetry; apply andb_true_iff; unfold min_int; split; lia).
  replace ((min_int <=? b) && (b <=? max_int)) with true
    by (symmetry; apply andb_true_iff; unfold min_int; split; lia).
  cbn [andb]. unfold min_int, max_int in *.
  replace (a + b - - 2 ^ 63) with (a + b - 2 ^ 63 + 1 * 2 ^ 64) by lia.
  rewrite Z.mod_add by lia. rewrite Z.mod_small by lia. lia.
Qed.

(** A slice within the limit of the allocator has a length far below the
    largest int. *)
Lemma maxAlloc_fits (size n : Z) :
  1 <= size -> size * n <= maxAlloc -> n <= max_int.
Proof. unfold maxAlloc, max_int. intros H1 H2. nia. Qed.

(* ================================================================== *)
(** ** Slices: basic facts *)

Lemma length_update {A : Type} (n : nat) (v : A) (s : list A) :
  length (update n v s) = length s.
Proof.
  revert n; induction s as [|x s IH]; intros [|n]; simpl; auto.
Qed.

Lemma nth_update_same {A : Type} (n : nat) (v d : A) (s : list A) :
  (n < length s)%nat -> nth n (update n v s) d = v.
Proof.
  revert n; induction s as [|x s IH]; intros [|n]; simpl; intros H;
    try lia; auto.
  apply IH; lia.
Qed.

Lemma nth_update_other {A : Type} (n k : nat) (v d : A) (s : list A) :
  k <> n -> nth k (update n v s) d = nth k s d.
Proof.
  revert n k; induction s as [|x s IH]; intros [|n] [|k]; simpl; intros H;
    try lia; auto.
Qed.

Lemma len_nonneg {A : Type} (s : list A) : 0 <= len s.
Proof. unfold len; lia. Qed.

Lemma len_update {A : Type} (n : nat) (v : A) (s : list A) :
  len (update n v s) = len s.
Proof. unfold len; now rewrite length_update. Qed.

Lemma len_repeat {A : Type} (x : A) (n : Z) :
  0 <= n -> len (repeat x (Z.to_nat n)) = n.
Proof. intros H; unfold len; rewrite repeat_length; lia. Qed.

Lemma in_range_true {A : Type} (s : list A) (i : Z) :
  0 <= i < len s -> in_range s i = true.
Proof. intros H; unfold in_range; apply andb_true_intro; split; lia. Qed.

Lemma index_done {A : Type} (d : A) (s : list A) (i : Z) :
  0 <= i < len s -> index d s i = Done (nth (Z.to_nat i) s d).
Proof. intros H; unfold index; now rewrite in_range_true. Qed.

Lemma assign_done {A : Type} (s : list A) (i : Z) (v : A) :
  0 <= i < len s -> assign s i v = Done (update (Z.to_nat i) v s).
Proof. intros H; unfold assign; now rewrite in_range_true. Qed.

Lemma make_done {A : Type} (zero : A) (n : Z) :
  0 <= n -> make zero n = Done (repeat zero (Z.to_nat n)).
Proof. intros H; unfold make; destruct (n <? 0) eqn:E; [lia | reflexivity]. Qed.

Lemma entry_update (s : list float) (i k : Z) (v : float) :
  0 <= i < len s -> 0 <= k ->
  entry (update (Z.to_nat i) v s) k = if k =? i then v else entry s k.
Proof.
  unfold entry, len; intros Hi Hk.
  destruct (k =? i) eqn:E.
  - apply Z.eqb_eq in E; subst k. apply nth_update_same; lia.
  - apply Z.eqb_neq in E. apply nth_update_other; lia.
Qed.

Lemma length_copy {A : Type} (dst src : list A) :
  length (copy dst src) = length dst.
Proof.
  unfold copy. rewrite length_app, length_firstn, length_skipn. lia.
Qed.

Lemma nth_copy {A : Type} (dst src : list A) (k : nat) (d : A) :
  nth k (copy dst src) d =
  if (k <? length src)%nat && (k <? length dst)%nat then nth k src d
  else nth k dst d.
Proof.
  unfold copy.
  destruct (k <? length src)%nat eqn:Hs; simpl.
  - apply Nat.ltb_lt in Hs.
    destruct (k <? length dst)%nat eqn:Hd.
    + apply Nat.ltb_lt in Hd.
      rewrite app_nth1 by (rewrite length_firstn; lia).
      rewrite nth_firstn.
      replace (k <? length dst)%nat with true by (symmetry; apply Nat.ltb_lt; lia).
      reflexivity.
    + apply Nat.ltb_ge in Hd.
      rewrite app_nth2 by (rewrite length_firstn; lia).
      rewrite nth_overflow by (rewrite length_skipn; lia).
      symmetry; apply nth_overflow; lia.
  - apply Nat.ltb_ge in Hs.
    rewrite app_nth2 by (rewrite length_firstn; lia).
    rewrite length_firstn, nth_skipn.
    destruct (Nat.lt_ge_cases k (length dst)) as [Hd | Hd].
    + f_equal. lia.
    + rewrite !nth_overflow by lia. reflexivity.
Qed.

(* ================================================================== *)
(** ** Loops: the invariant rule *)

Lemma for_loop_inv {S : Type} (P : Z -> S -> Prop) (body : Z -> S -> outcome S)
    (n : nat) (lo : Z) (s : S) :
  P lo s ->
  (forall i s, lo <= i < lo + Z.of_nat n -> P i s ->
     exists s', body i s = Done s' /\ P (i + 1) s') ->
  exists s', for_loop n lo body s = Done s' /\ P (lo + Z.of_nat n) s'.
Proof.
  revert lo s; induction n as [|n IH]; intros lo s H0 Hstep.
  - exists s; split; [reflexivity | now rewrite Z.add_0_r].
  - destruct (Hstep lo s ltac:(lia) H0) as (s1 & Hb & H1).
    destruct (IH (lo + 1) s1 H1) as (s2 & Hl & H2).
    + intros i t Hi; apply Hstep; lia.
    + exists s2; split.
      * simpl; rewrite Hb; exact Hl.
      * replace (lo + Z.of_nat (Datatypes.S n)) with (lo + 1 + Z.of_nat n) by lia.
        exact H2.
Qed.

Lemma for_range_inv {S : Type} (P : Z -> S -> Prop) (body : Z -> S -> outcome S)
    (lo hi : Z) (s : S) :
  lo <= hi ->
  P lo s ->
  (forall i s, lo <= i < hi -> P i s ->
     exists s', body i s = Done s' /\ P (i + 1) s') ->
  exists s', for_range lo hi body s = Done s' /\ P hi s'.
Proof.
  intros Hle H0 Hstep. unfold for_range.
  destruct (for_loop_inv P body (Z.to_nat (hi - lo)) lo s H0) as (s' & Hl & Hp).
  - intros i t Hi; apply Hstep; lia.
  - exists s'; split; [exact Hl|].
    replace hi with (lo + Z.of_nat (Z.to_nat (hi - lo))) by lia. exact Hp.
Qed.

Lemma for_range_empty {S : Type} (body : Z -> S -> outcome S) (lo hi : Z) (s : S) :
  hi <= lo -> for_range lo hi body s = Done s.
Proof.
  intros H; unfold for_range. replace (Z.to_nat (hi - lo)) with O by lia.
  reflexivity.
Qed.

(* ================================================================== *)
(** ** The time axis *)

Lemma extendTimeValues_spec (timeValues : list float) (numToPredict : Z)
    (stepSize : float) :
  1 <= len timeValues -> 0 <= numToPredict ->
  len timeValues + numToPredict <= max_int ->
  exists pl,
    extendTimeValues timeValues numToPredict stepSize = Done pl /\
    len pl = len timeValues + numToPredict /\
    (forall k, 0 <= k < len timeValues -> entry pl k = entry timeValues k) /\
    (forall k, 1 <= k <= numToPredict ->
       entry pl (len timeValues + k - 1) =
       (entry timeValues (len timeValues - 1) + float64 k * stepSize)%float).
Proof.
  intros HN HH Hfit. unfold extendTimeValues.
  rewrite int_add_exact by (unfold min_int; lia).
  rewrite make_done by (pose proof (len_nonneg timeValues); lia). simpl bind.
  rewrite index_done by lia. simpl bind.
  fold (entry timeValues (len timeValues - 1)).
  set (lastv := entry timeValues (len timeValues - 1)).
  set (N := len timeValues) in *.
  pose (P := fun (i : Z) (pl : list float) =>
    len pl = N + numToPredict /\
    (forall k, 0 <= k < N -> entry pl k = entry timeValues k) /\
    (forall k, 1 <= k <= i ->
       entry pl (N + k - 1) = (lastv + float64 k * stepSize)%float)).
  destruct (for_range_inv P
    (fun i pl => assign pl (N + i) (lastv + float64 (i + 1) * stepSize)%float)
    0 numToPredict
    (copy (repeat 0%float (Z.to_nat (N + numToPredict))) timeValues) HH)
    as (pl & Hrun & Hlen & Hold & Hnew).
  - unfold P; repeat split.
    + unfold len; rewrite length_copy, repeat_length; lia.
    + intros k Hk. unfold entry. rewrite nth_copy.
      replace (Z.to_nat k <? length timeValues)%nat with true
        by (symmetry; apply Nat.ltb_lt; unfold N, len in Hk; lia).
      replace (Z.to_nat k <? length (repeat 0%float (Z.to_nat (N + numToPredict))))%nat
        with true
        by (symmetry; apply Nat.ltb_lt; rewrite repeat_length;
            unfold N, len in *; lia).
      reflexivity.
    + intros k Hk; lia.
  - intros i pl Hi (Hlen & Hold & Hnew).
    rewrite assign_done by lia.
    eexists; split; [reflexivity|].
    unfold P; repeat split.
    + now rewrite len_update.
    + intros k Hk. rewrite entry_update by lia.
      replace (k =? N + i) with false by (symmetry; apply Z.eqb_neq; lia).
      now apply Hold.
    + intros k Hk. rewrite entry_update by lia.
      destruct (N + k - 1 =? N + i) eqn:E.
      * apply Z.eqb_eq in E. replace k with (i + 1) by lia. reflexivity.
      * apply Z.eqb_neq in E. apply Hnew; lia.
  - exists pl; repeat split; assumption.
Qed.

(* ================================================================== *)
(** ** The time axis, with its backing arrays *)

Lemma update_app_last {A : Type} (h : list A) (x y : A) :
  update (length h) y (h ++ [x]) = h ++ [y].
Proof. induction h as [|a h IH]; simpl; [reflexivity | now rewrite IH]. Qed.

Lemma nth_app_last {A : Type} (h : list A) (x d : A) :
  nth (length h) (h ++ [x]) d = x.
Proof. rewrite app_nth2 by lia. now rewrite Nat.sub_diag. Qed.

Lemma length_contents (h : Store.heap) (s : Store.slice) :
  Store.wf h s -> length (Store.contents h s) = Store.size s.
Proof.
  intros [_ H]. unfold Store.contents.
  rewrite length_firstn, length_skipn. lia.
Qed.

Lemma nth_contents (h : Store.heap) (s : Store.slice) (i : nat) :
  (i < Store.size s)%nat ->
  nth i (Store.contents h s) 0%float =
  nth (Store.start s + i) (Store.backing h s) 0%float.
Proof.
  intros H. unfold Store.contents. rewrite nth_firstn, nth_skipn.
  replace (i <? Store.size s)%nat with true by (symmetry; apply Nat.ltb_lt; lia).
  reflexivity.
Qed.

Lemma backing_app (h : Store.heap) (a : list float) (s : Store.slice) :
  (Store.base s < length h)%nat ->
  Store.backing (h ++ [a]) s = Store.backing h s.
Proof. intros H; unfold Store.backing; now rewrite app_nth1. Qed.

Lemma contents_app (h : Store.heap) (a : list float) (s : Store.slice) :
  (Store.base s < length h)%nat ->
  Store.contents (h ++ [a]) s = Store.contents h s.
Proof. intros H; unfold Store.contents; now rewrite backing_app. Qed.

(** The loop of [extendTimeValues] on the store writes the new array only. *)
Lemma store_loop_refines (h : Store.heap) (pl : Store.slice)
    (f : Z -> float) (N : Z) (n : nat) (lo : Z) (a : list float) :
  Store.base pl = length h -> Store.start pl = O ->
  length a = Store.size pl ->
  for_loop n lo (fun i h' => Store.store h' pl (N + i) (f i)) (h ++ [a]) =
  match for_loop n lo (fun i a' => assign a' (N + i) (f i)) a with
  | Done a' => Done (h ++ [a'])
  | Panics => Panics
  end.
Proof.
  intros Hb Hs. revert lo a; induction n as [|n IH]; intros lo a Ha;
    cbn [for_loop].
  - reflexivity.
  - assert (Hstep : Store.store (h ++ [a]) pl (N + lo) (f lo) =
                    match assign a (N + lo) (f lo) with
                    | Done a' => Done (h ++ [a'])
                    | Panics => Panics
                    end).
    { unfold Store.store, assign, in_range, Store.slen, len.
      rewrite Ha.
      destruct ((0 <=? N + lo) && (N + lo <? Z.of_nat (Store.size pl)));
        [|reflexivity].
      unfold Store.backing.
      rewrite Hb, Hs, nth_app_last, update_app_last. reflexivity. }
    rewrite Hstep.
    destruct (assign a (N + lo) (f lo)) as [a'|] eqn:E; cbn [bind];
      [|reflexivity].
    apply IH. unfold assign in E.
    destruct (in_range a (N + lo)); [|discriminate].
    injection E as <-. now rewrite length_update.
Qed.

(** The embedding on the store computes what the embedding on values
    computes, in a backing array of its own. *)
Lemma Store_extendTimeValues_refines (h : Store.heap) (timeValues : Store.slice)
    (numToPredict : Z) (stepSize : float) :
  Store.wf h timeValues ->
  Store.extendTimeValues timeValues numToPredict stepSize h =
  match extendTimeValues (Store.contents h timeValues) numToPredict stepSize with
  | Done pl =>
      Done (Store.mkSlice (length h) 0
              (Z.to_nat (int_add (Store.slen timeValues) numToPredict)),
            h ++ [pl])
  | Panics => Panics
  end.
Proof.
  intros Hwf. pose proof (length_contents h timeValues Hwf) as Hlen.
  destruct Hwf as [Hbase Hfit].
  unfold Store.extendTimeValues, extendTimeValues, Store.make, make.
  unfold len; rewrite Hlen; fold (Store.slen timeValues).
  destruct (int_add (Store.slen timeValues) numToPredict <? 0) eqn:Hneg;
    [reflexivity|]. simpl bind.
  set (n := Z.to_nat (int_add (Store.slen timeValues) numToPredict)).
  set (pl := Store.mkSlice (length h) 0 n).
  assert (Hcopy : Store.copy pl timeValues (h ++ [repeat 0%float n]) =
                  h ++ [copy (repeat 0%float n) (Store.contents h timeValues)]).
  { unfold Store.copy. rewrite (contents_app h _ timeValues) by assumption.
    unfold Store.contents at 1. unfold Store.backing. simpl.
    rewrite nth_app_last, firstn_all2 by (rewrite repeat_length; lia).
    rewrite skipn_all2 by (rewrite repeat_length; lia).
    rewrite app_nil_r. apply update_app_last. }
  rewrite Hcopy.
  unfold Store.load, index, in_range, len. rewrite Hlen.
  fold (Store.slen timeValues).
  destruct ((0 <=? Store.slen timeValues - 1) &&
            (Store.slen timeValues - 1 <? Store.slen timeValues)) eqn:Hin;
    [|reflexivity]. simpl bind.
  rewrite backing_app by assumption.
  apply andb_true_iff in Hin. destruct Hin as [Hin1 Hin2].
  apply Z.leb_le in Hin1. apply Z.ltb_lt in Hin2.
  rewrite nth_contents by (unfold Store.slen in *; lia).
  unfold for_range.
  rewrite (store_loop_refines h pl
             (fun i => (nth (Store.start timeValues + Z.to_nat (Store.slen timeValues - 1))
                          (Store.backing h timeValues) 0 + float64 (i + 1) * stepSize)%float)
             (Store.slen timeValues));
    try reflexivity.
  - destruct (for_loop _ _ _ _); reflexivity.
  - rewrite length_copy, repeat_length. reflexivity.
Qed.

(* ================================================================== *)
(** ** The design matrix *)

Lemma for_loop_ext {S : Type} (f g : Z -> S -> outcome S) (n : nat) (lo : Z) (s : S) :
  (forall i s, f i s = g i s) -> for_loop n lo f s = for_loop n lo g s.
Proof.
  intros H. revert lo s; induction n as [|n IH]; intros lo s; simpl.
  - reflexivity.
  - rewrite H. destruct (g lo s); simpl; [apply IH | reflexivity].
Qed.

Lemma entry_repeat (n : nat) (k : Z) : entry (repeat 0%float n) k = 0%float.
Proof.
  unfold entry. destruct (Nat.lt_ge_cases (Z.to_nat k) n).
  - now apply nth_repeat_lt.
  - apply nth_overflow. now rewrite repeat_length.
Qed.

(** A loop that fills the columns [lo + c .. hi + c) of a row from the
    entries [t - j] of a series, where they exist. *)
Lemma fill_range_spec (src : list float) (f : float -> float) (c t lo hi : Z)
    (row : list float) :
  lo <= hi -> 0 <= lo + c -> hi + c <= len row -> t - lo < len src ->
  exists row',
    for_range lo hi
      (fun j row =>
         if t - j >=? 0 then
           y <- fidx src (t - j) ;; assign row (j + c) (f y)
         else Done row) row = Done row' /\
    len row' = len row /\
    forall k, 0 <= k ->
      entry row' k =
      if (lo + c <=? k) && (k <? hi + c) && (t - (k - c) >=? 0)
      then f (entry src (t - (k - c))) else entry row k.
Proof.
  intros Hle Hlo Hhi Hsrc.
  pose (P := fun (j : Z) (r : list float) =>
    len r = len row /\
    forall k, 0 <= k ->
      entry r k =
      if (lo + c <=? k) && (k <? j + c) && (t - (k - c) >=? 0)
      then f (entry src (t - (k - c))) else entry row k).
  destruct (for_range_inv P
    (fun j row =>
       if t - j >=? 0 then y <- fidx src (t - j) ;; assign row (j + c) (f y)
       else Done row) lo hi row Hle) as (row' & Hrun & Hlen & Hent).
  - split; [reflexivity|]. intros k Hk.
    replace ((lo + c <=? k) && (k <? lo + c)) with false; [reflexivity|].
    symmetry. apply andb_false_iff.
    destruct (Z.le_gt_cases (lo + c) k); [right; lia | left; lia].
  - intros j r Hj (Hlen & Hent).
    destruct (t - j >=? 0) eqn:Hg.
    + rewrite index_done by lia. cbn [bind].
      rewrite assign_done by lia.
      eexists; split; [reflexivity|]. split; [now rewrite len_update|].
      intros k Hk. rewrite entry_update by lia.
      destruct (k =? j + c) eqn:E.
      * apply Z.eqb_eq in E; subst k.
        replace (j + c - c) with j by lia. rewrite Hg.
        replace (lo + c <=? j + c) with true by lia.
        replace (j + c <? j + 1 + c) with true by lia.
        reflexivity.
      * apply Z.eqb_neq in E. rewrite Hent by lia.
        replace (k <? j + 1 + c) with (k <? j + c) by lia. reflexivity.
    + exists r; split; [reflexivity|]. split; [assumption|].
      intros k Hk. rewrite Hent by lia.
      destruct (k =? j + c) eqn:E.
      * apply Z.eqb_eq in E; subst k.
        replace (j + c - c) with j by lia. rewrite Hg.
        rewrite ?andb_false_r. reflexivity.
      * apply Z.eqb_neq in E.
        replace (k <? j + 1 + c) with (k <? j + c) by lia. reflexivity.
  - exists row'; repeat split; assumption.
Qed.

(** One row of the design matrix. *)
Lemma phi_row_spec (Y P : list float) (na nb t : Z) :
  0 <= na -> 0 <= nb -> t < len Y -> t < len P ->
  exists row,
    (row <- fmake (na + nb + 1) ;;
     row <- phi_row_values Y na t row ;;
     phi_row_inputs P na nb t row) = Done row /\
    len row = na + nb + 1 /\
    forall k, 0 <= k -> entry row k = phi_entry Y P na nb t k.
Proof.
  intros Hna Hnb HY HP.
  rewrite make_done by lia. cbn [bind].
  set (row0 := repeat 0%float (Z.to_nat (na + nb + 1))).
  assert (Hlen0 : len row0 = na + nb + 1) by (apply len_repeat; lia).
  destruct (fill_range_spec Y (fun y => (- y)%float) (-1) t 1 (na + 1) row0)
    as (row1 & Hrun1 & Hlen1 & Hent1); try lia.
  destruct (fill_range_spec P (fun p => p) na t 0 (nb + 1) row1)
    as (row2 & Hrun2 & Hlen2 & Hent2); try lia.
  exists row2. split; [|split].
  - unfold phi_row_values, phi_row_inputs.
    unfold for_range in *.
    rewrite (for_loop_ext _
      (fun j row =>
         if t - j >=? 0 then
           y <- fidx Y (t - j) ;; assign row (j + -1) (- y)%float
         else Done row)).
    + rewrite Hrun1. cbn [bind].
      rewrite (for_loop_ext _
        (fun j row =>
           if t - j >=? 0 then y <- fidx P (t - j) ;; assign row (j + na) y
           else Done row)).
      * exact Hrun2.
      * intros j r. now rewrite (Z.add_comm na j).
    + intros j r. reflexivity.
  - lia.
  - intros k Hk. rewrite Hent2, Hent1 by lia. unfold phi_entry.
    unfold row0. rewrite entry_repeat.
    destruct (k <? na) eqn:E1.
    + replace (0 + na <=? k) with false by lia. cbn [andb].
      replace (1 + -1 <=? k) with true by lia.
      replace (k <? na + 1 + -1) with true by lia. cbn [andb].
      replace (k - -1) with (k + 1) by lia. reflexivity.
    + replace (k <? na + 1 + -1) with false by lia.
      rewrite andb_false_r. cbn [andb].
      replace (0 + na <=? k) with true by lia.
      replace (k <? nb + 1 + na) with (k <=? na + nb) by lia. cbn [andb].
      destruct (k <=? na + nb); reflexivity.
Qed.

Lemma elem_update_row (m : Dense) (i r c : Z) (row : list float) :
  0 <= i < len (Elems m) -> 0 <= r ->
  elem (mkDense (Rows m) (Cols m) (update (Z.to_nat i) row (Elems m))) r c =
  if r =? i then entry row c else elem m r c.
Proof.
  intros Hi Hr. unfold elem, entry, len in *. cbn [Elems].
  destruct (r =? i) eqn:E.
  - apply Z.eqb_eq in E; subst r. rewrite nth_update_same by lia. reflexivity.
  - apply Z.eqb_neq in E. rewrite nth_update_other by lia. reflexivity.
Qed.

(** The design matrix, for any lag window [m]. *)
Lemma constructPhiMatrix_rows (Y P : list float) (na nb m : Z) :
  len Y = len P -> 0 <= na -> 0 <= nb -> m < len Y ->
  exists phi,
    constructPhiMatrix Y P na nb m = Done (Some phi) /\
    Dims phi = (len Y - m, na + nb + 1) /\
    forall i k, 0 <= i < len Y - m -> 0 <= k ->
      elem phi i k = phi_entry Y P na nb (i + m) k.
Proof.
  intros HYP Hna Hnb Hm. unfold constructPhiMatrix.
  replace (len Y - m <=? 0) with false by lia.
  unfold NewDense.
  replace ((len Y - m <=? 0) || (na + nb + 1 <=? 0)) with false
    by (symmetry; apply orb_false_iff; split; lia).
  cbn [bind].
  set (phi0 := mkDense (len Y - m) (na + nb + 1)
                 (repeat (repeat 0%float (Z.to_nat (na + nb + 1)))
                    (Z.to_nat (len Y - m)))).
  pose (Inv := fun (i : Z) (phi : Dense) =>
    Rows phi = len Y - m /\ Cols phi = na + nb + 1 /\
    len (Elems phi) = len Y - m /\
    forall r k, 0 <= r < i -> 0 <= k ->
      elem phi r k = phi_entry Y P na nb (r + m) k).
  destruct (for_range_inv Inv
    (fun i phi =>
       row <- fmake (na + nb + 1) ;;
       row <- phi_row_values Y na (i + m) row ;;
       row <- phi_row_inputs P na nb (i + m) row ;;
       SetRow phi i row) 0 (len Y - m) phi0)
    as (phi & Hrun & HR & HC & HL & Hent).
  - lia.
  - unfold Inv, phi0; cbn [Rows Cols Elems]. repeat split.
    + apply len_repeat; lia.
    + intros r k Hr; lia.
  - intros i phi Hi (HR & HC & HL & Hent).
    destruct (phi_row_spec Y P na nb (i + m)) as (row & Hrow & Hlen & Hre);
      try lia.
    assert (Hbody :
      (row <- fmake (na + nb + 1) ;;
       row <- phi_row_values Y na (i + m) row ;;
       row <- phi_row_inputs P na nb (i + m) row ;;
       SetRow phi i row) = SetRow phi i row).
    { destruct (fmake (na + nb + 1)) as [r0|]; cbn [bind] in *;
        [|discriminate].
      destruct (phi_row_values Y na (i + m) r0) as [r1|]; cbn [bind] in *;
        [|discriminate].
      rewrite Hrow. reflexivity. }
    rewrite Hbody. unfold SetRow.
    replace ((0 <=? i) && (i <? Rows phi) && (len row =? Cols phi)) with true
      by (symmetry; rewrite !andb_true_iff; repeat split; lia).
    eexists; split; [reflexivity|].
    unfold Inv; cbn [Rows Cols Elems]. repeat split; try assumption.
    + now rewrite len_update.
    + intros r k Hr Hk. rewrite elem_update_row by lia.
      destruct (r =? i) eqn:E.
      * apply Z.eqb_eq in E; subst r. now apply Hre.
      * apply Z.eqb_neq in E. apply Hent; lia.
  - exists phi. rewrite Hrun. cbn [bind]. repeat split.
    + unfold Dims. now rewrite HR, HC.
    + intros i k Hi Hk. now apply Hent.
Qed.

(* ================================================================== *)
(** ** Float arithmetic *)

Lemma SFsub_add_opp (prec emax : Z) (x y : spec_float) :
  SFsub prec emax x y = SFadd prec emax x (SFopp y).
Proof.
  destruct x as [sx|sx| |sx mx ex], y as [sy|sy| |sy my ey]; simpl;
    try reflexivity; destruct sx, sy; reflexivity.
Qed.

Lemma SFopp_round_aux (prec emax : Z) (s : bool) (m e : Z) (l : location) :
  SFopp (binary_round_aux prec emax s m e l) =
  binary_round_aux prec emax (negb s) m e l.
Proof.
  unfold binary_round_aux.
  destruct (shr_fexp prec emax m e l) as [mrs' e'].
  destruct (shr_fexp prec emax _ e' loc_Exact) as [mrs'' e''].
  destruct (shr_m mrs''); try reflexivity.
  destruct (e'' <=? emax - prec); reflexivity.
Qed.

Lemma SFmul_opp_l (prec emax : Z) (x y : spec_float) :
  SFmul prec emax (SFopp x) y = SFopp (SFmul prec emax x y).
Proof.
  destruct x as [sx|sx| |sx mx ex], y as [sy|sy| |sy my ey]; simpl;
    try reflexivity; try (destruct sx, sy; reflexivity).
  rewrite SFopp_round_aux. f_equal. destruct sx, sy; reflexivity.
Qed.

Lemma SFmul_comm (prec emax : Z) (x y : spec_float) :
  SFmul prec emax x y = SFmul prec emax y x.
Proof.
  destruct x as [sx|sx| |sx mx ex], y as [sy|sy| |sy my ey]; simpl;
    try reflexivity; try (destruct sx, sy; reflexivity).
  rewrite Pos.mul_comm, Z.add_comm, xorb_comm. reflexivity.
Qed.

Lemma float_mul_comm (x y : float) : (x * y = y * x)%float.
Proof. apply Prim2SF_inj. rewrite !FloatAxioms.mul_spec. apply SFmul_comm. Qed.

(** [sum -= y * t] adds the term [-t * y]. *)
Lemma float_sub_mul (s y t : float) : (s - y * t = s + - t * y)%float.
Proof.
  apply Prim2SF_inj.
  rewrite FloatAxioms.sub_spec, FloatAxioms.add_spec, !FloatAxioms.mul_spec,
    FloatAxioms.opp_spec.
  unfold SF64sub, SF64add, SF64mul.
  rewrite SFsub_add_opp, SFmul_opp_l. do 2 f_equal. apply SFmul_comm.
Qed.

(** A positive step is not rejected by the test [StepSize <= 0]. *)
Lemma float_pos_not_le (x : float) :
  (0 <? x)%float = true -> (x <=? 0)%float = false.
Proof.
  rewrite FloatAxioms.ltb_spec, FloatAxioms.leb_spec. unfold SFltb, SFleb.
  change (Prim2SF 0) with (S754_zero false).
  destruct (Prim2SF x) as [sx|sx| |sx mx ex]; simpl; try discriminate;
    destruct sx; simpl; try discriminate; reflexivity.
Qed.

(* ================================================================== *)
(** ** The recursive forecaster *)

Lemma in_zrange (lo : Z) (n : nat) (j : Z) :
  In j (zrange lo n) <-> lo <= j < lo + Z.of_nat n.
Proof.
  revert lo; induction n as [|n IH]; intros lo; simpl.
  - split; [intros [] | lia].
  - rewrite IH. lia.
Qed.

Lemma length_zrange (lo : Z) (n : nat) : length (zrange lo n) = n.
Proof. revert lo; induction n as [|n IH]; intros lo; simpl; auto. Qed.

Lemma for_loop_fold {S : Type} (step : S -> Z -> S) (body : Z -> S -> outcome S)
    (n : nat) (lo : Z) (s : S) :
  (forall j s, lo <= j < lo + Z.of_nat n -> body j s = Done (step s j)) ->
  for_loop n lo body s = Done (fold_left step (zrange lo n) s).
Proof.
  revert lo s; induction n as [|n IH]; intros lo s H; simpl.
  - reflexivity.
  - rewrite H by lia. cbn [bind]. apply IH. intros j t Hj. apply H. lia.
Qed.

Lemma fold_guarded_sum (g : Z -> bool) (term : Z -> float) (l : list Z) (s : float) :
  fold_left (fun s j => if g j then (s + term j)%float else s) l s =
  fsum_from s (map term (filter g l)).
Proof.
  unfold fsum_from. revert s; induction l as [|j l IH]; intros s; simpl.
  - reflexivity.
  - destruct (g j); simpl; apply IH.
Qed.

Lemma At_done (m : Dense) (i j : Z) :
  0 <= i < Rows m -> 0 <= j < Cols m -> At m i j = Done (elem m i j).
Proof.
  intros Hi Hj. unfold At.
  replace ((0 <=? i) && (i <? Rows m) && (0 <=? j) && (j <? Cols m)) with true
    by (symmetry; rewrite !andb_true_iff; repeat split; lia).
  reflexivity.
Qed.

Lemma ar_part_spec (yAp : list float) (theta : Dense) (na i : Z) (sum : float) :
  0 <= na -> na <= Rows theta -> 1 <= Cols theta -> i - 1 < len yAp ->
  ar_part yAp (Some theta) na i sum =
  Done (fsum_from sum (ar_terms theta yAp na i)).
Proof.
  intros Hna HR HC Hi. unfold ar_part, for_range, ar_terms.
  replace (Z.to_nat (na + 1 - 1)) with (Z.to_nat na) by lia.
  rewrite <- fold_guarded_sum.
  apply for_loop_fold. intros j s Hj.
  destruct (i - j >=? 0) eqn:Hg; [|reflexivity].
  rewrite index_done by lia. cbn [bind At_ptr].
  rewrite At_done by lia. cbn [bind].
  fold (entry yAp (i - j)). now rewrite float_sub_mul.
Qed.

Lemma input_part_spec (pl : list float) (theta : Dense) (na nb i : Z)
    (sum : float) :
  0 <= na -> 0 <= nb -> na + nb + 1 <= Rows theta -> 1 <= Cols theta ->
  i < len pl ->
  input_part pl (Some theta) na nb i sum =
  Done (fsum_from sum (input_terms theta pl na nb i)).
Proof.
  intros Hna Hnb HR HC Hi. unfold input_part, for_range, input_terms.
  replace (Z.to_nat (nb + 1 - 0)) with (Z.to_nat (nb + 1)) by lia.
  rewrite <- fold_guarded_sum.
  apply for_loop_fold. intros j s Hj.
  destruct (i - j >=? 0) eqn:Hg; [|reflexivity].
  rewrite index_done by lia. cbn [bind At_ptr].
  rewrite At_done by lia. cbn [bind].
  fold (entry pl (i - j)). now rewrite float_mul_comm.
Qed.

(** The autoregressive terms at [i] read the series below [i] only. *)
Lemma ar_terms_ext (theta : Dense) (a b : list float) (na i : Z) :
  (forall k, 0 <= k < i -> entry a k = entry b k) ->
  ar_terms theta a na i = ar_terms theta b na i.
Proof.
  intros H. unfold ar_terms. apply map_ext_in. intros j Hj.
  apply filter_In in Hj. destruct Hj as [Hj Hg].
  apply in_zrange in Hj. rewrite H by lia. reflexivity.
Qed.

Lemma recurrence_ext (theta : Dense) (a b pl : list float) (na nb i : Z) :
  (forall k, 0 <= k < i -> entry a k = entry b k) ->
  recurrence theta a pl na nb i = recurrence theta b pl na nb i.
Proof.
  intros H. unfold recurrence. now rewrite (ar_terms_ext theta a b).
Qed.

Lemma entry_seeded (dataValues pl : list float) (k : Z) :
  0 <= k < len pl -> k < len dataValues ->
  entry (seeded dataValues pl) k = entry dataValues k.
Proof.
  unfold entry, seeded, len. intros Hk HY. rewrite nth_copy, repeat_length.
  replace (Z.to_nat k <? length dataValues)%nat with true
    by (symmetry; apply Nat.ltb_lt; lia).
  replace (Z.to_nat k <? length pl)%nat with true
    by (symmetry; apply Nat.ltb_lt; lia).
  reflexivity.
Qed.

(** The forecaster: the result has the length of the input axis, keeps the
    seed up to index [m], and satisfies the recurrence above [m]. *)
Lemma performPrediction_spec (dataValues pl : list float) (theta : Dense)
    (m na nb : Z) :
  0 <= m -> 0 <= na -> 0 <= nb ->
  na + nb + 1 <= Rows theta -> 1 <= Cols theta ->
  exists yAp,
    performPrediction dataValues pl (Some theta) m na nb = Done yAp /\
    len yAp = len pl /\
    (forall k, 0 <= k <= m -> entry yAp k = entry (seeded dataValues pl) k) /\
    (forall i, m + 1 <= i < len pl ->
       entry yAp i = recurrence theta yAp pl na nb i).
Proof.
  intros Hm Hna Hnb HR HC. unfold performPrediction.
  rewrite make_done by apply len_nonneg. cbn [bind].
  replace (Z.to_nat (len pl)) with (length pl) by (unfold len; lia).
  fold (seeded dataValues pl).
  assert (Hseed : len (seeded dataValues pl) = len pl).
  { unfold seeded, len. now rewrite length_copy, repeat_length. }
  destruct (Z.le_gt_cases (len pl) (m + 1)) as [Hshort | Hlong].
  { rewrite for_range_empty by lia.
    exists (seeded dataValues pl). repeat split; auto. intros i Hi; lia. }
  pose (Inv := fun (i : Z) (y : list float) =>
    len y = len pl /\
    (forall k, 0 <= k -> k <= m \/ i <= k ->
       entry y k = entry (seeded dataValues pl) k) /\
    (forall k, m + 1 <= k < i -> entry y k = recurrence theta y pl na nb k)).
  destruct (for_range_inv Inv
    (fun i yAp =>
       let sum := 0%float in
       sum <- ar_part yAp (Some theta) na i sum ;;
       sum <- input_part pl (Some theta) na nb i sum ;;
       assign yAp i sum) (m + 1) (len pl) (seeded dataValues pl))
    as (yAp & Hrun & Hlen & Hkeep & Hrec).
  - lia.
  - unfold Inv. repeat split; auto. intros k Hk; lia.
  - intros i y Hi (Hlen & Hkeep & Hrec). cbn zeta.
    rewrite ar_part_spec by lia. cbn [bind].
    rewrite input_part_spec by lia. cbn [bind].
    rewrite assign_done by lia.
    eexists; split; [reflexivity|]. unfold Inv. repeat split.
    + now rewrite len_update.
    + intros k Hk Hor. rewrite entry_update by lia.
      replace (k =? i) with false by lia. apply Hkeep; lia.
    + intros k Hk.
      rewrite (recurrence_ext theta _ y).
      * rewrite entry_update by lia.
        destruct (k =? i) eqn:E.
        -- apply Z.eqb_eq in E; subst k. reflexivity.
        -- apply Z.eqb_neq in E. apply Hrec; lia.
      * intros k' Hk'. rewrite entry_update by lia.
        replace (k' =? i) with false by lia. reflexivity.
  - exists yAp. repeat split; auto. intros k Hk. apply Hkeep; lia.
Qed.

(* ================================================================== *)
(** ** The estimator *)

Lemma copy_same_length {A : Type} (dst src : list A) :
  length dst = length src -> copy dst src = src.
Proof.
  intros H. unfold copy.
  rewrite firstn_all2, skipn_all2 by lia. apply app_nil_r.
Qed.

Lemma fatal_none_cases (err : option error) :
  fatal err = None -> err = None \/ err = Some ErrSingular.
Proof.
  destruct err as [[]|]; simpl; intros H; try discriminate; auto.
Qed.

Section EstimatorFacts.

Variable inverse_of : Dense -> list (list float) * option error.

(** The estimator computes the coefficients of the normal equations from
    what the inversion routine leaves, and passes its error on. *)
Lemma calculateTheta_spec (phi : Dense) (dataValues : list float) :
  1 <= Rows phi -> 1 <= Cols phi -> Rows phi <= len dataValues ->
  calculateTheta inverse_of phi dataValues =
  Done match fatal (snd (inverse_of (normal_matrix phi))) with
       | Some e => (None, Some (Wrapf "matrix inversion failed: %w" e))
       | None => (Some (theta_of inverse_of phi dataValues),
                  snd (inverse_of (normal_matrix phi)))
       end.
Proof.
  intros HR HC HY. unfold calculateTheta, Dims.
  rewrite make_done by lia. cbn [bind].
  unfold slice_from.
  replace ((0 <=? len dataValues - Rows phi) &&
           (len dataValues - Rows phi <=? len dataValues)) with true
    by (symmetry; apply andb_true_iff; split; lia).
  cbn [bind].
  rewrite copy_same_length
    by (rewrite repeat_length, length_skipn; unfold len in *; lia).
  fold (yTail (Rows phi) dataValues).
  unfold NewDense.
  replace ((Cols phi <=? 0) || (Cols phi <=? 0)) with false
    by (symmetry; apply orb_false_iff; split; lia).
  replace ((Cols phi <=? 0) || (1 <=? 0)) with false
    by (symmetry; apply orb_false_iff; split; lia).
  cbn [bind]. unfold Mul at 1. cbn [Rows Cols T].
  rewrite !Z.eqb_refl. cbn [andb bind].
  fold (normal_matrix phi).
  unfold NewColumn.
  replace ((Rows phi <=? 0) || negb (len (yTail (Rows phi) dataValues) =? Rows phi))
    with false.
  2:{ symmetry. apply orb_false_iff. split; [lia|].
      apply negb_false_iff, Z.eqb_eq. unfold yTail, len in *.
      rewrite length_skipn. lia. }
  cbn [bind]. unfold Mul at 1. cbn [Rows Cols T column].
  rewrite !Z.eqb_refl. cbn [andb bind].
  fold (column (Rows phi) (yTail (Rows phi) dataValues)).
  fold (normal_rhs phi dataValues).
  unfold Inverse. cbn [Rows Cols normal_matrix product T].
  rewrite !Z.eqb_refl. cbn [andb negb bind].
  fold (normal_matrix phi).
  destruct (fatal (snd (inverse_of (normal_matrix phi)))) as [e|]; [reflexivity|].
  cbn [bind]. unfold Mul.
  cbn [Rows Cols inverse_matrix normal_matrix normal_rhs product T column].
  rewrite !Z.eqb_refl. cbn [andb bind]. reflexivity.
Qed.

End EstimatorFacts.

(* ================================================================== *)
(** ** The predictor *)

Lemma update_app_middle {A : Type} (pre rest : list A) (x y : A) :
  update (length pre) y (pre ++ x :: rest) = pre ++ y :: rest.
Proof. induction pre as [|a pre IH]; simpl; [reflexivity | now rewrite IH]. Qed.

Lemma separate_spec (rows : list (list float)) (pre_d pre_t rest_d rest_t : list float) :
  Forall (fun row => 2 <= len row) rows ->
  length pre_d = length pre_t ->
  length rest_d = length rows -> length rest_t = length rows ->
  separate rows (len pre_d) (pre_d ++ rest_d) (pre_t ++ rest_t) =
  Done (pre_d ++ values rows, pre_t ++ inputs rows).
Proof.
  intros Hrows. revert pre_d pre_t rest_d rest_t.
  induction Hrows as [|row rows Hrow Hrows IH];
    intros pre_d pre_t rest_d rest_t Hpre Hd Ht.
  - destruct rest_d, rest_t; try discriminate. reflexivity.
  - destruct rest_d as [|xd rest_d], rest_t as [|xt rest_t]; try discriminate.
    simpl in Hd, Ht. cbn [separate].
    rewrite index_done by lia. cbn [bind].
    rewrite assign_done
      by (unfold len; rewrite length_app; simpl; lia).
    cbn [bind]. rewrite index_done by lia. cbn [bind].
    rewrite assign_done
      by (unfold len; rewrite length_app; simpl; lia).
    cbn [bind].
    replace (Z.to_nat (len pre_d)) with (length pre_d) by (unfold len; lia).
    rewrite update_app_middle. rewrite Hpre at 1. rewrite update_app_middle.
    replace (len pre_d + 1) with (len (pre_d ++ [nth (Z.to_nat 0) row 0%float]))
      by (unfold len; rewrite length_app; simpl; lia).
    change (pre_d ++ nth (Z.to_nat 0) row 0%float :: rest_d)
      with (pre_d ++ [nth (Z.to_nat 0) row 0%float] ++ rest_d).
    change (pre_t ++ nth (Z.to_nat 1) row 0%float :: rest_t)
      with (pre_t ++ [nth (Z.to_nat 1) row 0%float] ++ rest_t).
    rewrite !app_assoc. rewrite IH.
    + rewrite <- !app_assoc. reflexivity.
    + rewrite !length_app. simpl. lia.
    + lia.
    + lia.
Qed.

Lemma separate_columns (data : list (list float)) :
  Forall (fun row => 2 <= len row) data ->
  separate data 0 (repeat 0%float (length data)) (repeat 0%float (length data)) =
  Done (values data, inputs data).
Proof.
  intros H.
  apply (separate_spec data [] [] _ _ H); auto; apply repeat_length.
Qed.

Lemma nth_zrange (lo : Z) (n k : nat) (d : Z) :
  (k < n)%nat -> nth k (zrange lo n) d = lo + Z.of_nat k.
Proof.
  revert lo k; induction n as [|n IH]; intros lo [|k] H; simpl; try lia.
  rewrite IH by lia. lia.
Qed.

Lemma len_pairs (pl yAp : list float) : len (pairs pl yAp) = len pl.
Proof. unfold len, pairs. now rewrite length_map, length_zrange. Qed.

Lemma nth_pairs (pl yAp : list float) (k : Z) :
  0 <= k < len pl ->
  nth (Z.to_nat k) (pairs pl yAp) [] = [entry pl k; entry yAp k].
Proof.
  intros Hk. unfold pairs, len in *.
  set (f := fun i => [entry pl i; entry yAp i]).
  rewrite (nth_indep _ [] (f 0))
    by (rewrite length_map, length_zrange; lia).
  rewrite (map_nth f), nth_zrange by lia.
  replace (0 + Z.of_nat (Z.to_nat k)) with k by lia. reflexivity.
Qed.

Lemma combine_result_spec (pl yAp : list float) :
  len yAp = len pl ->
  combine_result pl yAp (repeat [] (Z.to_nat (len pl))) = Done (pairs pl yAp).
Proof.
  intros Hlen. unfold combine_result.
  pose (Inv := fun (i : Z) (r : list (list float)) =>
    len r = len pl /\
    forall k, 0 <= k < i -> nth (Z.to_nat k) r [] = [entry pl k; entry yAp k]).
  destruct (for_range_inv Inv
    (fun i result =>
       x <- fidx pl i ;; y <- fidx yAp i ;; assign result i [x; y])
    0 (len pl) (repeat [] (Z.to_nat (len pl))))
    as (r & Hrun & Hr & Hent).
  - apply len_nonneg.
  - split; [apply len_repeat, len_nonneg | intros k Hk; lia].
  - intros i r Hi (Hr & Hent).
    rewrite !index_done by lia. cbn [bind].
    rewrite assign_done by lia.
    eexists; split; [reflexivity|]. split; [now rewrite len_update|].
    intros k Hk. destruct (Z.eq_dec k i) as [->|Hne].
    + rewrite nth_update_same by (unfold len in *; lia). reflexivity.
    + rewrite nth_update_other by lia. apply Hent; lia.
  - rewrite Hrun. f_equal. apply (nth_ext _ _ [] []).
    + pose proof (len_pairs pl yAp). unfold len in *. lia.
    + intros k Hk. rewrite <- (Nat2Z.id k).
      rewrite Hent, nth_pairs by (unfold len in *; lia). reflexivity.
Qed.

Lemma len_values (data : list (list float)) : len (values data) = len data.
Proof. unfold len, values. now rewrite length_map. Qed.

Lemma len_inputs (data : list (list float)) : len (inputs data) = len data.
Proof. unfold len, inputs. now rewrite length_map. Qed.

(** The entries of the matrices of the estimator. *)
Lemma zrange_snoc (lo : Z) (n : nat) :
  zrange lo (Datatypes.S n) = zrange lo n ++ [lo + Z.of_nat n].
Proof.
  revert lo; induction n as [|n IH]; intros lo.
  - simpl. now rewrite Z.add_0_r.
  - change (zrange lo (Datatypes.S (Datatypes.S n)))
      with (lo :: zrange (lo + 1) (Datatypes.S n)).
    rewrite IH.
    change (zrange lo (Datatypes.S n)) with (lo :: zrange (lo + 1) n).
    replace (lo + Z.of_nat (Datatypes.S n)) with (lo + 1 + Z.of_nat n) by lia.
    reflexivity.
Qed.

Lemma nth_map_zrange {A : Type} (f : Z -> A) (n : nat) (k : Z) (d : A) :
  0 <= k < Z.of_nat n -> nth (Z.to_nat k) (map f (zrange 0 n)) d = f k.
Proof.
  intros Hk.
  rewrite (nth_indep _ d (f 0)) by (rewrite length_map, length_zrange; lia).
  rewrite (map_nth f), nth_zrange by lia. f_equal. lia.
Qed.

Lemma sum_of_products_ext (x y x' y' : Z -> float) (n : nat) :
  (forall k, 0 <= k < Z.of_nat n -> x k = x' k /\ y k = y' k) ->
  sum_of_products x y n = sum_of_products x' y' n.
Proof.
  induction n as [|n IH]; intros H; [reflexivity|].
  cbn [sum_of_products]. rewrite IH by (intros k Hk; apply H; lia).
  destruct (H (Z.of_nat n)) as [-> ->]; [lia | reflexivity].
Qed.

(** The entries of a product are the sums of products of gonum's kernels. *)
Lemma dot_sum_of_products (a b : Dense) (i j : Z) :
  dot a b i j =
  sum_of_products (fun k => elem a i k) (fun k => elem b k j)
    (Z.to_nat (Cols a)).
Proof.
  unfold dot. induction (Z.to_nat (Cols a)) as [|n IH]; [reflexivity|].
  rewrite zrange_snoc, fold_left_app, IH. cbn [fold_left sum_of_products].
  rewrite Z.add_0_l. reflexivity.
Qed.

Lemma elem_product (a b : Dense) (i j : Z) :
  0 <= i < Rows a -> 0 <= j < Cols b ->
  elem (product a b) i j = dot a b i j.
Proof.
  intros Hi Hj. unfold elem, product. cbn [Elems].
  rewrite (nth_map_zrange
             (fun i => map (fun j => dot a b i j) (zrange 0 (Z.to_nat (Cols b)))))
    by lia.
  now rewrite (nth_map_zrange (fun j => dot a b i j)) by lia.
Qed.

Lemma elem_T (m : Dense) (i j : Z) :
  0 <= i < Cols m -> 0 <= j < Rows m -> elem (T m) i j = elem m j i.
Proof.
  intros Hi Hj. unfold elem at 1, T. cbn [Elems].
  rewrite (nth_map_zrange
             (fun j => map (fun i => elem m i j) (zrange 0 (Z.to_nat (Rows m)))))
    by lia.
  cbv beta. now rewrite (nth_map_zrange (fun i' => elem m i' i)) by lia.
Qed.

Lemma elem_column (r : Z) (data : list float) (k : Z) :
  0 <= k < len data -> elem (column r data) k 0 = entry data k.
Proof.
  intros Hk. unfold elem, column, entry, len in *. cbn [Elems].
  rewrite (nth_indep _ [] ((fun v => [v]) 0%float))
    by (rewrite length_map; lia).
  rewrite (map_nth (fun v : float => [v])). reflexivity.
Qed.

Lemma entry_yTail (r : Z) (Y : list float) (l : Z) :
  0 <= r <= len Y -> 0 <= l ->
  entry (yTail r Y) l = entry Y (len Y - r + l).
Proof.
  intros Hr Hl. unfold entry, yTail. rewrite nth_skipn. f_equal. lia.
Qed.

Section PredictorFacts.

Variable inverse_of : Dense -> list (list float) * option error.

(** A series that is too short is refused before anything is computed. *)
Lemma Predict_short (p : Predictor) (numToPredict : Z) :
  len (Data p) <=
    Z.max (AutoregressiveLags (Params p)) (ExternalInputLags (Params p)) ->
  Predict inverse_of p numToPredict =
  Done (None,
        Some (Errorf "not enough data points for prediction, need at least %d points"
                [ArgInt (int_add (Z.max (AutoregressiveLags (Params p))
                                    (ExternalInputLags (Params p))) 1)])).
Proof.
  intros H. unfold Predict.
  replace (len (Data p) <=? Z.max _ _) with true by lia. reflexivity.
Qed.

(** The run of [Predict] on a series that is long enough. *)
Lemma Predict_run (p : Predictor) (numToPredict : Z) :
  let na := AutoregressiveLags (Params p) in
  let nb := ExternalInputLags (Params p) in
  Forall (fun row => 2 <= len row) (Data p) ->
  0 <= na -> 0 <= nb -> Z.max na nb < len (Data p) -> 0 <= numToPredict ->
  len (Data p) + numToPredict <= max_int ->
  exists pl phi,
    extendTimeValues (inputs (Data p)) numToPredict (StepSize (Params p)) = Done pl /\
    design p = Done (Some phi) /\
    (forall e, fatal (snd (inverse_of (normal_matrix phi))) = Some e ->
       Predict inverse_of p numToPredict =
       Done (None,
             Some (Wrapf "error calculating theta: %w"
                     (Wrapf "matrix inversion failed: %w" e)))) /\
    (fatal (snd (inverse_of (normal_matrix phi))) = None ->
       exists yAp,
         performPrediction (values (Data p)) pl
           (Some (theta_of inverse_of phi (values (Data p))))
           (Z.max na nb) na nb = Done yAp /\
         len yAp = len pl /\
         Predict inverse_of p numToPredict =
         Done (Some (pairs pl yAp), snd (inverse_of (normal_matrix phi)))).
Proof.
  intros na nb Hrows Hna Hnb Hlong HH Hfit.
  pose proof (len_values (Data p)) as HlenY.
  pose proof (len_inputs (Data p)) as HlenP.
  destruct (extendTimeValues_spec (inputs (Data p)) numToPredict
              (StepSize (Params p))) as (pl & Hpl & Hlpl & _); try lia.
  destruct (constructPhiMatrix_rows (values (Data p)) (inputs (Data p)) na nb
              (Z.max na nb)) as (phi & Hphi & Hdims & _); try lia.
  injection Hdims as HR HC.
  exists pl, phi. split; [exact Hpl|]. split; [exact Hphi|].
  assert (Hhead : forall k,
    (r <- calculateTheta inverse_of phi (values (Data p)) ;;
     let '(th, err) := r in
     match fatal err with
     | Some e => Done (None, Some (Wrapf "error calculating theta: %w" e))
     | None =>
         yAp <- performPrediction (values (Data p)) pl th (Z.max na nb) na nb ;;
         result <- make [] (len pl) ;;
         result <- combine_result pl yAp result ;;
         Done (Some result, err)
     end) = k ->
    Predict inverse_of p numToPredict = k).
  { intros k <-. unfold Predict. fold na nb.
    replace (len (Data p) <=? Z.max na nb) with false by lia.
    rewrite make_done by apply len_nonneg. cbn [bind].
    replace (Z.to_nat (len (Data p))) with (length (Data p))
      by (unfold len; lia).
    rewrite separate_columns by assumption. cbn [bind].
    rewrite Hpl. cbn [bind]. rewrite Hphi. cbn [bind]. reflexivity. }
  rewrite calculateTheta_spec in Hhead by lia. cbn [bind] in Hhead.
  split.
  - intros e He. apply Hhead. rewrite He. reflexivity.
  - intros Hok.
    destruct (performPrediction_spec (values (Data p)) pl
                (theta_of inverse_of phi (values (Data p)))
                (Z.max na nb) na nb) as (yAp & Hrun & Hlen & _);
      try lia.
    { cbn [theta_of product inverse_matrix normal_matrix T Rows]. lia. }
    { cbn. lia. }
    exists yAp. split; [exact Hrun|]. split; [exact Hlen|].
    apply Hhead. rewrite Hok.
    destruct (fatal_none_cases _ Hok) as [-> | ->]; cbn [fatal is_ErrSingular];
      rewrite Hrun; cbn [bind];
      (rewrite make_done by apply len_nonneg); cbn [bind];
      (rewrite combine_result_spec by assumption); reflexivity.
Qed.

End PredictorFacts.

(* ================================================================== *)
(** ** The cases of the repository's tests *)

Example test_NewPredictor_valid :
  NewPredictor [[1; 1]; [2; 2]]%float (mkModelParameters 3 3 25%float) =
  (Some (mkPredictor [[1; 1]; [2; 2]]%float (mkModelParameters 3 3 25%float)),
   None).
Proof. reflexivity. Qed.

Example test_NewPredictor_zero_step :
  fst (NewPredictor [[1; 1]; [2; 2]]%float (mkModelParameters 3 3 0%float)) = None.
Proof. reflexivity. Qed.

Example test_extend_simple :
  extendTimeValues [1; 2; 3]%float 2 1%float = Done [1; 2; 3; 4; 5]%float.
Proof. reflexivity. Qed.

Example test_extend_step :
  extendTimeValues [10; 20; 30]%float 3 5%float =
  Done [10; 20; 30; 35; 40; 45]%float.
Proof. reflexivity. Qed.

Example test_extend_zero :
  extendTimeValues [1; 2; 3]%float 0 1%float = Done [1; 2; 3]%float.
Proof. reflexivity. Qed.

Example test_extend_negative :
  extendTimeValues [-1; -2; -3]%float 2 (-1)%float =
  Done [-1; -2; -3; -4; -5]%float.
Proof. reflexivity. Qed.

Example test_extend_empty :
  extendTimeValues [] 1 1%float = Panics.
Proof. reflexivity. Qed.

Example test_phi_simple :
  constructPhiMatrix [1; 2; 3; 4; 5]%float [10; 20; 30; 40; 50]%float 2 1 2 =
  Done (Some (mkDense 3 4 [[-2; -1; 30; 20];
                           [-3; -2; 40; 30];
                           [-4; -3; 50; 40]]%float)).
Proof. reflexivity. Qed.

Example test_phi_minimal :
  constructPhiMatrix [1]%float [10]%float 0 0 0 =
  Done (Some (mkDense 1 1 [[10]]%float)).
Proof. reflexivity. Qed.

Example test_phi_empty : constructPhiMatrix [] [] 2 1 2 = Done None.
Proof. reflexivity. Qed.

(** With a lag window below the lags, the entries whose lag reaches before
    the series stay zero. *)
Example test_phi_padding :
  constructPhiMatrix [1; 2; 3]%float [10; 20; 30]%float 2 1 0 =
  Done (Some (mkDense 3 4 [[0; 0; 10; 0];
                           [-1; 0; 20; 10];
                           [-2; -1; 30; 20]]%float)).
Proof. reflexivity. Qed.

Example test_prediction_simple :
  performPrediction [1; 2; 3]%float [10; 20; 30]%float
    (Some (mkDense 4 1 [[0.5]; [0.5]; [1]; [1]]%float)) 1 2 1 =
  Done [1; 2; 48.5]%float.
Proof. reflexivity. Qed.

Example test_prediction_short_axis :
  performPrediction [1; 2; 3; 4; 5; 6; 7; 8; 9; 10]%float [22; 23]%float
    (Some (mkDense 4 1 [[0.5]; [0.5]; [1]; [1]]%float)) 1 2 1 =
  Done [1; 2]%float.
Proof. reflexivity. Qed.

(* ================================================================== *)
(** ** The claims of the specification *)

Lemma NewPredictor_inv (data : list (list float)) (params : ModelParameters)
    (p : Predictor) :
  NewPredictor data params = (Some p, None) ->
  p = mkPredictor data params /\
  0 < AutoregressiveLags params /\ 0 <= ExternalInputLags params.
Proof.
  unfold NewPredictor.
  destruct (AutoregressiveLags params <=? 0) eqn:Hna; [discriminate|].
  destruct (ExternalInputLags params <? 0) eqn:Hnb; [discriminate|].
  cbn [orb].
  destruct (StepSize params <=? 0)%float; [discriminate|].
  intros H. injection H as <-. repeat split; lia.
Qed.

(** X20.  The forecast of a run whose inversion is not fatal.  For a
    predictor constructed from a series of [N] rows [[value, input]] with
    valid parameters, a horizon [H >= 0] whose [N + H] rows fit an
    allocation and [N > m = max(na, nb)], and when the inversion of
    [phi^T * phi] reports no error other than [mat.ErrSingular],
    [Predict(H)] returns [N + H] pairs; the first [N] inputs are the
    historical ones and the input of the pair [N + k - 1] is
    [lastHistoricalInput + k * StepSize] for [k = 1..H], so that the final
    input is [lastHistoricalInput + H * StepSize] (the last historical
    input for [H = 0]). *)
Theorem Predict_forecast_shape
    (inverse_of : Dense -> list (list float) * option error)
    (data : list (list float)) (params : ModelParameters) (p : Predictor)
    (H : Z) :
  NewPredictor data params = (Some p, None) ->
  Forall (fun row => 2 <= len row) data ->
  Z.max (AutoregressiveLags params) (ExternalInputLags params) < len data ->
  0 <= H -> 24 * (len data + H) <= maxAlloc ->
  fatal (inversion_error inverse_of p) = None ->
  exists result,
    Predict inverse_of p H = Done (Some result, inversion_error inverse_of p) /\
    len result = len data + H /\
    (forall i, 0 <= i < len data + H ->
       length (nth (Z.to_nat i) result []) = 2%nat) /\
    (forall i, 0 <= i < len data ->
       entry (nth (Z.to_nat i) result []) 0 = entry (inputs data) i) /\
    (forall k, 1 <= k <= H ->
       entry (nth (Z.to_nat (len data + k - 1)) result []) 0 =
       (entry (inputs data) (len data - 1) + float64 k * StepSize params)%float) /\
    (1 <= H ->
       entry (nth (Z.to_nat (len result - 1)) result []) 0 =
       (entry (inputs data) (len data - 1) + float64 H * StepSize params)%float) /\
    (H = 0 ->
       entry (nth (Z.to_nat (len result - 1)) result []) 0 =
       entry (inputs data) (len data - 1)).
Proof.
  intros Hnew Hrows Hlong HH Hfit Hok.
  apply maxAlloc_fits in Hfit; [|lia].
  destruct (NewPredictor_inv data params p Hnew) as (-> & Hna & Hnb).
  pose proof (len_inputs data) as HlenP.
  destruct (extendTimeValues_spec (inputs data) H (StepSize params))
    as (pl0 & Hpl0 & Hlpl & Hold & Hnext); try lia.
  destruct (Predict_run inverse_of (mkPredictor data params) H)
    as (pl & phi & Hpl & Hphi & _ & Hgood); cbn [Data Params] in *;
    try assumption; try lia.
  rewrite Hpl0 in Hpl. injection Hpl as <-.
  unfold inversion_error in *. rewrite Hphi in *.
  destruct (Hgood Hok) as (yAp & _ & Hlen & Hrun).
  exists (pairs pl0 yAp). split; [exact Hrun|].
  rewrite len_pairs. split; [lia|].
  split; [|split; [|split; [|split]]].
  - intros i Hi. rewrite nth_pairs by lia. reflexivity.
  - intros i Hi. rewrite nth_pairs by lia. cbn. apply Hold. lia.
  - intros k Hk. rewrite nth_pairs by lia. cbn.
    rewrite <- HlenP. apply Hnext. exact Hk.
  - intros H1. rewrite nth_pairs by lia. cbn.
    replace (len pl0 - 1) with (len (inputs data) + H - 1) by lia.
    rewrite <- HlenP. apply Hnext. lia.
  - intros ->. rewrite nth_pairs by lia. cbn.
    replace (len pl0 - 1) with (len data - 1) by lia. apply Hold. lia.
Qed.

Lemma Predict_forecast_shape_witness :
  exists result,
    Predict (inverse_2x2 ErrSingular)
      (mkPredictor [[1; 0]; [2; 1]; [4; 2]; [8; 3]]%float
         (mkModelParameters 1 0 1%float)) 2 = Done (Some result, None) /\
    len result = 6 /\
    entry (nth 5 result []) 0 = 5%float.
Proof.
  destruct (Predict_forecast_shape (inverse_2x2 ErrSingular)
              [[1; 0]; [2; 1]; [4; 2]; [8; 3]]%float
              (mkModelParameters 1 0 1%float)
              (mkPredictor [[1; 0]; [2; 1]; [4; 2]; [8; 3]]%float
                 (mkModelParameters 1 0 1%float)) 2)
    as (result & Hrun & Hlen & _ & _ & Hlast & _).
  - reflexivity.
  - repeat constructor; cbn; lia.
  - cbn; lia.
  - lia.
  - cbn; lia.
  - vm_compute; reflexivity.
  - exists result. split; [exact Hrun|]. split; [exact Hlen|].
    exact (Hlast 2 ltac:(lia)).
Defined.

(** C1.  On a constant series the matrix [phi^T * phi] is exactly singular.
    The inversion reports it as [mat.Condition] of [+Inf], as gonum's
    [Inverse] does, and the tests [err != mat.ErrSingular] of
    [calculateTheta] and of [Predict] take this for a fatal error:
    [Predict] returns the error and no sequence, where the comment of
    [calculateTheta] and the repository's test of a singular matrix expect
    the run to go on to the forecast of [N + H] pairs. *)
Lemma Predict_fatal_inversion :
  NewPredictor [[1; 1]; [1; 1]; [1; 1]]%float (mkModelParameters 1 0 1%float) =
    (Some (mkPredictor [[1; 1]; [1; 1]; [1; 1]]%float
             (mkModelParameters 1 0 1%float)), None) /\
  Z.max 1 0 < len [[1; 1]; [1; 1]; [1; 1]]%float /\
  Predict (inverse_2x2 (Condition infinity))
    (mkPredictor [[1; 1]; [1; 1]; [1; 1]]%float
       (mkModelParameters 1 0 1%float)) 2 =
  Done (None,
        Some (Wrapf "error calculating theta: %w"
                (Wrapf "matrix inversion failed: %w" (Condition infinity)))).
Proof.
  split; [reflexivity|]. split; [cbn; lia|]. vm_compute. reflexivity.
Qed.

(** C2, as the code has it.  The forecaster keeps the historical values in
    the entries of index [k <= m] only: the first [min(L, len(Y), m + 1)]
    entries of its result are the historical values. *)
Theorem performPrediction_keeps_seed (Y pl : list float) (theta : Dense)
    (m na nb : Z) :
  0 <= m -> 0 <= na -> 0 <= nb -> Dims theta = (na + nb + 1, 1) ->
  exists yAp,
    performPrediction Y pl (Some theta) m na nb = Done yAp /\
    len yAp = len pl /\
    forall k, 0 <= k < Z.min (len pl) (len Y) -> k <= m ->
      entry yAp k = entry Y k.
Proof.
  intros Hm Hna Hnb Hdims. injection Hdims as HR HC.
  destruct (performPrediction_spec Y pl theta m na nb)
    as (yAp & Hrun & Hlen & Hkeep & _); try lia.
  exists yAp. split; [exact Hrun|]. split; [exact Hlen|].
  intros k Hk Hkm. rewrite Hkeep by lia. apply entry_seeded; lia.
Qed.

Lemma performPrediction_keeps_seed_witness :
  exists yAp,
    performPrediction [1; 2; 3]%float [10; 20; 30]%float
      (Some (mkDense 4 1 [[0.5]; [0.5]; [1]; [1]]%float)) 1 2 1 = Done yAp /\
    entry yAp 0 = 1%float /\ entry yAp 1 = 2%float.
Proof.
  destruct (performPrediction_keeps_seed [1; 2; 3]%float [10; 20; 30]%float
              (mkDense 4 1 [[0.5]; [0.5]; [1]; [1]]%float) 1 2 1)
    as (yAp & Hrun & _ & Hkeep); [lia | lia | lia | reflexivity |].
  exists yAp. split; [exact Hrun|].
  split; [apply (Hkeep 0) | apply (Hkeep 1)]; cbn; lia.
Defined.

(** C2, as the specification states it, fails: with [m = 1] the entry of
    index 2 of a series of three historical values is recomputed. *)
Lemma performPrediction_overwrites_history :
  performPrediction [1; 2; 3]%float [10; 20; 30]%float
    (Some (mkDense 4 1 [[0.5]; [0.5]; [1]; [1]]%float)) 1 2 1 =
  Done [1; 2; 48.5]%float /\
  2 < Z.min (len [10; 20; 30]%float) (len [1; 2; 3]%float) /\
  entry [1; 2; 48.5]%float 2 <> entry [1; 2; 3]%float 2.
Proof.
  split; [vm_compute; reflexivity|]. split; [vm_compute; reflexivity|].
  intros H. apply (f_equal (fun x => (x <? 4)%float)) in H.
  vm_compute in H. discriminate.
Qed.

(** C3. For series [Y] and [P] of the same length [N] and lags
    [na, nb >= 0] with [m = max(na, nb)]: when [N <= m] the builder returns
    nil; otherwise it returns a matrix with [N - m] rows and [na + nb + 1]
    columns whose row [i], for the original index [t = i + m], has
    [-Y[t-j]] in column [j - 1] for [j = 1..na] and [P[t-j]] in column
    [na + j] for [j = 0..nb], and [0] in place of an entry with
    [t - j < 0]. *)
Theorem constructPhiMatrix_design (Y P : list float) (na nb : Z) :
  len Y = len P -> 0 <= na -> 0 <= nb ->
  (len Y <= Z.max na nb ->
     constructPhiMatrix Y P na nb (Z.max na nb) = Done None) /\
  (Z.max na nb < len Y ->
     exists phi,
       constructPhiMatrix Y P na nb (Z.max na nb) = Done (Some phi) /\
       Dims phi = (len Y - Z.max na nb, na + nb + 1) /\
       forall i, 0 <= i < len Y - Z.max na nb ->
         (forall j, 1 <= j <= na ->
            At phi i (j - 1) =
            Done (if i + Z.max na nb - j >=? 0
                  then (- entry Y (i + Z.max na nb - j))%float else 0%float)) /\
         (forall j, 0 <= j <= nb ->
            At phi i (na + j) =
            Done (if i + Z.max na nb - j >=? 0
                  then entry P (i + Z.max na nb - j) else 0%float))).
Proof.
  intros HYP Hna Hnb. split.
  - intros Hshort. unfold constructPhiMatrix.
    replace (len Y - Z.max na nb <=? 0) with true by lia. reflexivity.
  - intros Hlong.
    destruct (constructPhiMatrix_rows Y P na nb (Z.max na nb))
      as (phi & Hrun & Hdims & Hent); try lia.
    exists phi. split; [exact Hrun|]. split; [exact Hdims|].
    injection Hdims as HR HC.
    intros i Hi. split; intros j Hj.
    + rewrite At_done by lia. rewrite Hent by lia. unfold phi_entry.
      replace (j - 1 <? na) with true by lia.
      replace (j - 1 + 1) with j by lia. reflexivity.
    + rewrite At_done by lia. rewrite Hent by lia. unfold phi_entry.
      replace (na + j <? na) with false by lia.
      replace (na + j <=? na + nb) with true by lia.
      replace (na + j - na) with j by lia. reflexivity.
Qed.

Lemma constructPhiMatrix_design_witness :
  exists phi,
    constructPhiMatrix [1; 2; 3; 4; 5]%float [10; 20; 30; 40; 50]%float 2 1
      (Z.max 2 1) = Done (Some phi) /\
    Dims phi = (3, 4) /\
    At phi 0 0 = Done (-2)%float /\ At phi 0 3 = Done 20%float.
Proof.
  destruct (constructPhiMatrix_design
              [1; 2; 3; 4; 5]%float [10; 20; 30; 40; 50]%float 2 1)
    as [_ H]; [reflexivity | lia | lia |].
  destruct H as (phi & Hrun & Hdims & Hent); [cbn; lia|].
  exists phi. split; [exact Hrun|]. split; [exact Hdims|].
  destruct (Hent 0) as [Hv Hp]; [cbn; lia|].
  split; [exact (Hv 1 ltac:(lia)) | exact (Hp 1 ltac:(lia))].
Defined.

(** C4. For every [i] from [m + 1] to [L - 1] the forecast series satisfies
    [yAp[i] = sum_(j=1..na, i-j>=0) (-theta[j-1] * yAp[i-j])
            + sum_(j=0..nb, i-j>=0) (theta[na+j] * pl[i-j])],
    the terms being added in this order and read from the series itself;
    the entry of index [m] is the one of the seed step. *)
Theorem performPrediction_recurrence (Y pl : list float) (theta : Dense)
    (m na nb : Z) :
  0 <= m -> 0 <= na -> 0 <= nb -> Dims theta = (na + nb + 1, 1) ->
  exists yAp,
    performPrediction Y pl (Some theta) m na nb = Done yAp /\
    len yAp = len pl /\
    (forall i, m + 1 <= i < len pl ->
       entry yAp i = recurrence theta yAp pl na nb i) /\
    (forall k, 0 <= k <= m -> entry yAp k = entry (seeded Y pl) k).
Proof.
  intros Hm Hna Hnb Hdims. injection Hdims as HR HC.
  destruct (performPrediction_spec Y pl theta m na nb)
    as (yAp & Hrun & Hlen & Hkeep & Hrec); try lia.
  exists yAp. repeat split; assumption.
Qed.

Lemma performPrediction_recurrence_witness :
  exists yAp,
    performPrediction [1; 2; 3]%float [10; 20; 30; 40]%float
      (Some (mkDense 4 1 [[0.5]; [0.5]; [1]; [1]]%float)) 1 2 1 = Done yAp /\
    entry yAp 3 =
    (0 + - 0.5 * entry yAp 2 + - 0.5 * entry yAp 1 + 1 * 40 + 1 * 30)%float.
Proof.
  destruct (performPrediction_recurrence [1; 2; 3]%float [10; 20; 30; 40]%float
              (mkDense 4 1 [[0.5]; [0.5]; [1]; [1]]%float) 1 2 1)
    as (yAp & Hrun & _ & Hrec & _); [lia | lia | lia | reflexivity |].
  exists yAp. split; [exact Hrun|].
  apply (Hrec 3). cbn; lia.
Defined.

(** C5, as the code has it.  For a design matrix [phi] with [R >= 1] rows
    and [C >= 1] columns and a series [Y] of at least [R] values, when the
    inversion of [phi^T * phi] reports no error the estimator returns the
    column [theta] of [C] rows with [theta = M * (phi^T * yTail)] in float
    arithmetic: [phi^T * phi] has the entries
    [sum_l phi[l][i] * phi[l][j]], [yTail] is the last [R] entries of [Y],
    [M] is the matrix that the inversion leaves for the inverse of
    [phi^T * phi], and every sum is added from zero in the order of its
    index, without the terms whose left factor is zero. *)
Theorem calculateTheta_normal_equations
    (inverse_of : Dense -> list (list float) * option error)
    (phi : Dense) (Y : list float) :
  1 <= Rows phi -> 1 <= Cols phi -> Rows phi <= len Y ->
  snd (inverse_of (normal_matrix phi)) = None ->
  exists theta,
    calculateTheta inverse_of phi Y = Done (Some theta, None) /\
    Dims theta = (Cols phi, 1) /\
    (forall i j, 0 <= i < Cols phi -> 0 <= j < Cols phi ->
       elem (normal_matrix phi) i j =
       sum_of_products (fun l => elem phi l i) (fun l => elem phi l j)
         (Z.to_nat (Rows phi))) /\
    (forall i, 0 <= i < Cols phi ->
       elem theta i 0 =
       sum_of_products
         (fun k => elem (inverse_matrix inverse_of (normal_matrix phi)) i k)
         (fun k =>
            sum_of_products (fun l => elem phi l k)
              (fun l => entry Y (len Y - Rows phi + l))
              (Z.to_nat (Rows phi)))
         (Z.to_nat (Cols phi))).
Proof.
  intros HR HC HY Herr.
  exists (theta_of inverse_of phi Y).
  rewrite calculateTheta_spec, Herr by assumption. cbn [fatal].
  split; [reflexivity|]. split; [reflexivity|].
  assert (HlenT : len (yTail (Rows phi) Y) = Rows phi).
  { unfold yTail, len in *. rewrite length_skipn. lia. }
  split.
  - intros i j Hi Hj. unfold normal_matrix.
    rewrite elem_product by (cbn [Rows Cols T]; lia).
    rewrite dot_sum_of_products. cbn [Cols T].
    apply sum_of_products_ext. intros l Hl.
    split; [apply elem_T; lia | reflexivity].
  - intros i Hi. unfold theta_of.
    rewrite elem_product
      by (cbn [Rows Cols inverse_matrix normal_matrix normal_rhs product T
                 column]; lia).
    rewrite dot_sum_of_products.
    cbn [Cols inverse_matrix normal_matrix product T].
    apply sum_of_products_ext. intros k Hk. split; [reflexivity|].
    unfold normal_rhs.
    rewrite elem_product by (cbn [Rows Cols T column]; lia).
    rewrite dot_sum_of_products. cbn [Cols T].
    apply sum_of_products_ext. intros l Hl. split.
    + apply elem_T; lia.
    + rewrite elem_column by lia. apply entry_yTail; lia.
Qed.

Lemma calculateTheta_normal_equations_witness :
  exists theta,
    calculateTheta (inverse_2x2 (Condition infinity))
      (mkDense 2 2 [[-1; 0]; [-2; 1]]%float) [1; 2; 4]%float =
      Done (Some theta, None) /\
    Dims theta = (2, 1) /\
    elem theta 1 0 =
    (0 + elem (inverse_matrix (inverse_2x2 (Condition infinity))
                 (normal_matrix (mkDense 2 2 [[-1; 0]; [-2; 1]]%float))) 1 0
         * (0 + -1 * 2 + -2 * 4)
       + elem (inverse_matrix (inverse_2x2 (Condition infinity))
                 (normal_matrix (mkDense 2 2 [[-1; 0]; [-2; 1]]%float))) 1 1
         * (0 + 1 * 4))%float.
Proof.
  destruct (calculateTheta_normal_equations (inverse_2x2 (Condition infinity))
              (mkDense 2 2 [[-1; 0]; [-2; 1]]%float) [1; 2; 4]%float)
    as (theta & Hrun & Hdims & _ & Hth).
  - cbn; lia.
  - cbn; lia.
  - cbn; lia.
  - vm_compute; reflexivity.
  - exists theta. split; [exact Hrun|]. split; [exact Hdims|].
    rewrite (Hth 1) by (cbn; lia). vm_compute. reflexivity.
Defined.

(** C5, as the specification states it, fails.  The matrix [phi] below is
    square and not singular, [phi^T * phi] is twice the identity and its
    inversion reports no error, and the exact coefficients for the largest
    finite value [v] in both entries of the series are [v] and [0].  The
    sum [v + v] of [phi^T * yTail] overflows: the estimator returns [+Inf]
    and [0], and [phi * theta] is infinite in both entries, beyond every
    tolerance from the finite [yTail]. *)
Lemma calculateTheta_overflow :
  normal_matrix (mkDense 2 2 [[1; 1]; [1; -1]]%float) =
    mkDense 2 2 [[2; 0]; [0; 2]]%float /\
  calculateTheta (inverse_2x2 (Condition infinity))
    (mkDense 2 2 [[1; 1]; [1; -1]]%float)
    [0x1.fffffffffffffp+1023; 0x1.fffffffffffffp+1023]%float =
    Done (Some (mkDense 2 1 [[infinity]; [0]]%float), None) /\
  product (mkDense 2 2 [[1; 1]; [1; -1]]%float)
    (mkDense 2 1 [[infinity]; [0]]%float) =
    mkDense 2 1 [[infinity]; [infinity]]%float /\
  (0x1.fffffffffffffp+1023 <? infinity)%float = true.
Proof.
  repeat split; vm_compute; reflexivity.
Qed.

(** C6.  The matrix [phi] of the repository's test of a singular matrix,
    with the rows [[1, 2]] and [[2, 4]], and the design matrix of a series
    of three equal rows, with the rows [[-1, 1]], have an exactly singular
    [phi^T * phi]: the elimination finds no second pivot and the inversion
    reports [mat.Condition] of [+Inf], as gonum's [Inverse] does.  This
    error is not [mat.ErrSingular], so the estimator returns no
    coefficients and wraps the error, and [Predict] wraps it again and
    returns no forecast; the comment of [calculateTheta] and that test
    expect the coefficients, without an error that stops the run. *)
Lemma singular_matrix_is_fatal :
  normal_matrix (mkDense 2 2 [[1; 2]; [2; 4]]%float) =
    mkDense 2 2 [[5; 10]; [10; 20]]%float /\
  snd (inverse_gauss (mkDense 2 2 [[5; 10]; [10; 20]]%float)) =
    Some (Condition infinity) /\
  calculateTheta inverse_gauss (mkDense 2 2 [[1; 2]; [2; 4]]%float)
    [5; 6]%float =
    Done (None, Some (Wrapf "matrix inversion failed: %w" (Condition infinity))) /\
  design (mkPredictor [[1; 1]; [1; 1]; [1; 1]]%float
            (mkModelParameters 1 0 1%float)) =
    Done (Some (mkDense 2 2 [[-1; 1]; [-1; 1]]%float)) /\
  normal_matrix (mkDense 2 2 [[-1; 1]; [-1; 1]]%float) =
    mkDense 2 2 [[2; -2]; [-2; 2]]%float /\
  calculateTheta inverse_gauss (mkDense 2 2 [[-1; 1]; [-1; 1]]%float)
    [1; 1; 1]%float =
    Done (None, Some (Wrapf "matrix inversion failed: %w" (Condition infinity))) /\
  Predict inverse_gauss
    (mkPredictor [[1; 1]; [1; 1]; [1; 1]]%float
       (mkModelParameters 1 0 1%float)) 1 =
    Done (None,
          Some (Wrapf "error calculating theta: %w"
                  (Wrapf "matrix inversion failed: %w" (Condition infinity)))).
Proof.
  repeat split; vm_compute; reflexivity.
Qed.

(** C7. With a series of at most [m = max(na, nb)] rows, [Predict] returns
    the insufficient-data error and no result, whatever the rows, the
    horizon and the inversion routine are: the test comes before the
    columns are read and before the design matrix is built.  The error
    carries the int [m + 1], which is [m + 1] for [m] below the largest int
    and wraps around to the least int for the largest one. *)
Theorem Predict_insufficient_data
    (inverse_of : Dense -> list (list float) * option error)
    (p : Predictor) (numToPredict : Z) :
  len (Data p) <=
    Z.max (AutoregressiveLags (Params p)) (ExternalInputLags (Params p)) ->
  Predict inverse_of p numToPredict =
    Done (None,
          Some (Errorf "not enough data points for prediction, need at least %d points"
                  [ArgInt (int_add (Z.max (AutoregressiveLags (Params p))
                                      (ExternalInputLags (Params p))) 1)])) /\
  (Z.max (AutoregressiveLags (Params p)) (ExternalInputLags (Params p))
     < max_int ->
   int_add (Z.max (AutoregressiveLags (Params p))
              (ExternalInputLags (Params p))) 1 =
   Z.max (AutoregressiveLags (Params p)) (ExternalInputLags (Params p)) + 1).
Proof.
  intros Hshort. split; [now apply Predict_short|].
  intros Hm. apply int_add_exact.
  pose proof (len_nonneg (Data p)). unfold min_int. lia.
Qed.

Lemma Predict_insufficient_data_witness :
  Predict (inverse_2x2 ErrSingular)
    (mkPredictor [[1; 0]; [2]]%float (mkModelParameters 2 1 1%float)) (-3) =
    Done (None,
          Some (Errorf "not enough data points for prediction, need at least %d points"
                  [ArgInt 3])) /\
  Predict (inverse_2x2 ErrSingular)
    (mkPredictor [[1; 0]; [2; 1]]%float
       (mkModelParameters 9223372036854775807 0 1%float)) 1 =
    Done (None,
          Some (Errorf "not enough data points for prediction, need at least %d points"
                  [ArgInt (-9223372036854775808)])).
Proof.
  split.
  - apply (Predict_insufficient_data (inverse_2x2 ErrSingular)
             (mkPredictor [[1; 0]; [2]]%float (mkModelParameters 2 1 1%float))
             (-3)).
    cbn; lia.
  - apply (Predict_insufficient_data (inverse_2x2 ErrSingular)
             (mkPredictor [[1; 0]; [2; 1]]%float
                (mkModelParameters 9223372036854775807 0 1%float)) 1).
    cbn; lia.
Defined.

(** C8. [NewPredictor] returns an error exactly when [na <= 0], [nb < 0] or
    [StepSize <= 0]; with an error there is no predictor, and without one the
    predictor holds the data and the parameters that were supplied. *)
Theorem NewPredictor_error_iff (data : list (list float)) (params : ModelParameters) :
  (snd (NewPredictor data params) <> None <-> invalid params) /\
  match NewPredictor data params with
  | (Some p, None) => Data p = data /\ Params p = params
  | (None, Some _) => True
  | _ => False
  end.
Proof.
  unfold NewPredictor, invalid.
  destruct (AutoregressiveLags params <=? 0) eqn:Hna; simpl.
  - split; [split; [intros _; left; lia | discriminate] | exact I].
  - destruct (ExternalInputLags params <? 0) eqn:Hnb; simpl.
    + split; [split; [intros _; right; left; lia | discriminate] | exact I].
    + destruct (StepSize params <=? 0)%float eqn:Hs; simpl.
      * split; [split; [intros _; right; right; reflexivity | discriminate] | exact I].
      * split; [split | split; reflexivity].
        -- intros H; exfalso; apply H; reflexivity.
        -- intros [H | [H | H]]; try lia; discriminate.
Qed.

(** C9, as the code has it.  On a non-empty slice and a horizon
    [numToPredict >= 0] such that the [n + numToPredict] values of the
    result fit an allocation, the time axis extender returns a slice of
    length [n + numToPredict] whose first [n] entries are the historical
    ones and whose entry number [n + k], of index [n + k - 1], is
    [last + k * StepSize] for [k = 1..numToPredict].  The slice lives in a
    backing array allocated by the call: the arrays that existed before are
    unchanged, a later write through the result leaves the argument as it
    was, and for [numToPredict = 0] the result has the elements of the
    argument. *)
Theorem extendTimeValues_fresh_extension (h : Store.heap)
    (timeValues : Store.slice) (numToPredict : Z) (stepSize : float) :
  Store.wf h timeValues -> 1 <= Store.slen timeValues -> 0 <= numToPredict ->
  8 * (Store.slen timeValues + numToPredict) <= maxAlloc ->
  exists pl h',
    Store.extendTimeValues timeValues numToPredict stepSize h = Done (pl, h') /\
    len (Store.contents h' pl) = Store.slen timeValues + numToPredict /\
    (forall k, 0 <= k < Store.slen timeValues ->
       entry (Store.contents h' pl) k = entry (Store.contents h timeValues) k) /\
    (forall k, 1 <= k <= numToPredict ->
       entry (Store.contents h' pl) (Store.slen timeValues + k - 1) =
       (entry (Store.contents h timeValues) (Store.slen timeValues - 1)
        + float64 k * stepSize)%float) /\
    Store.base pl = length h /\
    Store.base pl <> Store.base timeValues /\
    (exists a, h' = h ++ [a]) /\
    (forall i v h'', Store.store h' pl i v = Done h'' ->
       Store.contents h'' timeValues = Store.contents h timeValues) /\
    (numToPredict = 0 ->
       Store.contents h' pl = Store.contents h timeValues).
Proof.
  intros Hwf HN HH Hmax.
  apply maxAlloc_fits in Hmax; [|lia].
  pose proof (length_contents h timeValues Hwf) as Hlen.
  assert (HlenZ : len (Store.contents h timeValues) = Store.slen timeValues)
    by (unfold len, Store.slen; now rewrite Hlen).
  destruct (extendTimeValues_spec (Store.contents h timeValues) numToPredict
              stepSize) as (l & Hrun & Hl & Hold & Hnew); try lia.
  rewrite HlenZ in *.
  set (pl := Store.mkSlice (length h) 0
               (Z.to_nat (Store.slen timeValues + numToPredict))).
  assert (Hc : Store.contents (h ++ [l]) pl = l).
  { unfold Store.contents, Store.backing; simpl.
    rewrite nth_app_last. apply firstn_all2. unfold len in Hl. lia. }
  exists pl, (h ++ [l]).
  rewrite Store_extendTimeValues_refines, Hrun by assumption.
  rewrite int_add_exact by (unfold min_int; lia). fold pl.
  rewrite Hc.
  destruct Hwf as [Hbase Hfit].
  repeat split; try assumption.
  - simpl. lia.
  - now exists l.
  - intros i v h'' Hst. unfold Store.store in Hst.
    destruct ((0 <=? i) && (i <? Store.slen pl)); [|discriminate].
    injection Hst as <-. unfold Store.contents, Store.backing. simpl.
    rewrite nth_update_other by lia.
    now rewrite app_nth1.
  - intros ->. apply (nth_ext _ _ 0%float 0%float).
    + unfold len, Store.slen in Hl. lia.
    + intros k Hk. specialize (Hold (Z.of_nat k)).
      unfold entry in Hold. rewrite Nat2Z.id in Hold.
      apply Hold. unfold len in Hl. unfold Store.slen in *. lia.
Qed.

Lemma extendTimeValues_fresh_extension_witness :
  exists pl h',
    Store.extendTimeValues (Store.mkSlice 0 0 3) 2 1%float [[1; 2; 3]%float] =
      Done (pl, h') /\
    len (Store.contents h' pl) = 5 /\
    entry (Store.contents h' pl) 4 = 5%float /\
    Store.base pl <> 0%nat.
Proof.
  destruct (extendTimeValues_fresh_extension [[1; 2; 3]%float]
              (Store.mkSlice 0 0 3) 2 1%float)
    as (pl & h' & Hrun & Hlen & _ & Hnew & _ & Hfresh & _).
  - split; cbn; lia.
  - cbn; lia.
  - lia.
  - cbn; lia.
  - exists pl, h'. split; [exact Hrun|]. split; [exact Hlen|].
    split; [exact (Hnew 2 ltac:(lia)) | exact Hfresh].
Defined.

(** C9, as the specification states it, fails: the horizon is an int that
    no test bounds, and for the largest int the length
    [len(timeValues) + numToPredict] wraps around to a negative int, with
    which [make] panics. *)
Lemma extendTimeValues_length_overflow :
  Store.wf [[1; 2; 3]%float] (Store.mkSlice 0 0 3) /\
  0 <= max_int /\
  int_add (Store.slen (Store.mkSlice 0 0 3)) max_int = -9223372036854775806 /\
  Store.extendTimeValues (Store.mkSlice 0 0 3) max_int 1%float
    [[1; 2; 3]%float] = Panics /\
  extendTimeValues [1; 2; 3]%float max_int 1%float = Panics.
Proof.
  split; [split; cbn; lia|]. split; [unfold max_int; lia|].
  repeat split; vm_compute; reflexivity.
Qed.

(** C10. [NewPredictor] does not look at the data: with valid parameters
    it succeeds on every series, the empty one included, and a series that
    is too short for the lags is reported by [Predict], as its
    insufficient-data error with the int [m + 1]. *)
Theorem NewPredictor_ignores_data (data : list (list float))
    (params : ModelParameters) :
  valid params ->
  NewPredictor data params = (Some (mkPredictor data params), None) /\
  forall inverse_of H,
    len data <= Z.max (AutoregressiveLags params) (ExternalInputLags params) ->
    Predict inverse_of (mkPredictor data params) H =
    Done (None,
          Some (Errorf "not enough data points for prediction, need at least %d points"
                  [ArgInt (int_add (Z.max (AutoregressiveLags params)
                                      (ExternalInputLags params)) 1)])).
Proof.
  intros (Hna & Hnb & Hs). split.
  - unfold NewPredictor.
    replace (AutoregressiveLags params <=? 0) with false by lia.
    replace (ExternalInputLags params <? 0) with false by lia.
    cbn [orb]. now rewrite (float_pos_not_le _ Hs).
  - intros inverse_of H Hshort. now apply Predict_short.
Qed.

Lemma NewPredictor_ignores_data_witness :
  NewPredictor [] (mkModelParameters 3 3 25%float) =
    (Some (mkPredictor [] (mkModelParameters 3 3 25%float)), None) /\
  Predict (inverse_2x2 ErrSingular)
    (mkPredictor [] (mkModelParameters 3 3 25%float)) 25 =
  Done (None,
        Some (Errorf "not enough data points for prediction, need at least %d points"
                [ArgInt 4])).
Proof.
  destruct (NewPredictor_ignores_data [] (mkModelParameters 3 3 25%float))
    as [Hnew Hshort].
  - repeat split; cbn; lia.
  - split; [exact Hnew|].
    apply (Hshort (inverse_2x2 ErrSingular) 25). cbn; lia.
Defined.

(* ================================================================== *)
(** ** Further properties of the code: edges of the components *)

(** A loop whose body panics at one of its indices, in every state,
    panics. *)
Lemma for_loop_reaches_panic {S : Type} (body : Z -> S -> outcome S)
    (n : nat) (lo i0 : Z) (s : S) :
  lo <= i0 < lo + Z.of_nat n ->
  (forall s, body i0 s = Panics) ->
  for_loop n lo body s = Panics.
Proof.
  revert lo s; induction n as [|n IH]; intros lo s Hi Hp; [lia|].
  cbn [for_loop].
  destruct (Z.eq_dec lo i0) as [->|Hne].
  - now rewrite Hp.
  - destruct (body lo s) as [s'|]; cbn [bind]; [|reflexivity].
    apply IH; [lia | exact Hp].
Qed.

Lemma for_range_reaches_panic {S : Type} (body : Z -> S -> outcome S)
    (lo hi i0 : Z) (s : S) :
  lo <= i0 < hi ->
  (forall s, body i0 s = Panics) ->
  for_range lo hi body s = Panics.
Proof.
  intros Hi Hp. unfold for_range.
  apply (for_loop_reaches_panic body _ lo i0); [lia | exact Hp].
Qed.

Lemma extendTimeValues_empty_panics_aux (numToPredict : Z) (stepSize : float) :
  extendTimeValues [] numToPredict stepSize = Panics.
Proof.
  unfold extendTimeValues, make. cbn [len length Z.of_nat].
  destruct (int_add 0 numToPredict <? 0); reflexivity.
Qed.

(** X1.  The time axis of an empty series: the extender reads the last input,
    so it panics whatever the horizon and the step are. *)
Theorem extendTimeValues_empty_panics (numToPredict : Z) (stepSize : float) :
  extendTimeValues [] numToPredict stepSize = Panics.
Proof. apply extendTimeValues_empty_panics_aux. Qed.

(** X2.  A horizon that is not positive is not refused: the extender returns
    the first [n + numToPredict] historical inputs, and panics only once
    this length is negative. *)
Theorem extendTimeValues_nonpositive_horizon (timeValues : list float)
    (numToPredict : Z) (stepSize : float) :
  1 <= len timeValues -> numToPredict <= 0 ->
  extendTimeValues timeValues numToPredict stepSize =
  if len timeValues + numToPredict <? 0 then Panics
  else Done (firstn (Z.to_nat (len timeValues + numToPredict)) timeValues).
Proof.
  intros HN HH. unfold extendTimeValues, make.
  rewrite int_add_nonpos by lia.
  destruct (len timeValues + numToPredict <? 0) eqn:Hneg; [reflexivity|].
  cbn [bind]. rewrite index_done by lia. cbn [bind].
  rewrite for_range_empty by lia. f_equal.
  unfold copy. rewrite repeat_length.
  rewrite skipn_all2 by (rewrite repeat_length; unfold len in *; lia).
  apply app_nil_r.
Qed.

Lemma extendTimeValues_nonpositive_horizon_witness :
  extendTimeValues [1; 2; 3]%float (-2) 1%float = Done [1]%float /\
  extendTimeValues [1; 2; 3]%float (-4) 1%float = Panics.
Proof.
  split.
  - apply (extendTimeValues_nonpositive_horizon [1; 2; 3]%float (-2) 1%float);
      cbn; lia.
  - apply (extendTimeValues_nonpositive_horizon [1; 2; 3]%float (-4) 1%float);
      cbn; lia.
Defined.

(** X3.  The design matrix for any lag window [m < N], below the lags or even
    negative: [N - m] rows, and zeros where a lag reaches before the
    series. *)
Theorem constructPhiMatrix_any_window (Y P : list float) (na nb m : Z) :
  len Y = len P -> 0 <= na -> 0 <= nb -> m < len Y ->
  exists phi,
    constructPhiMatrix Y P na nb m = Done (Some phi) /\
    Dims phi = (len Y - m, na + nb + 1) /\
    forall i, 0 <= i < len Y - m ->
      (forall j, 1 <= j <= na ->
         At phi i (j - 1) =
         Done (if i + m - j >=? 0 then (- entry Y (i + m - j))%float
               else 0%float)) /\
      (forall j, 0 <= j <= nb ->
         At phi i (na + j) =
         Done (if i + m - j >=? 0 then entry P (i + m - j) else 0%float)).
Proof.
  intros HYP Hna Hnb Hm.
  destruct (constructPhiMatrix_rows Y P na nb m)
    as (phi & Hrun & Hdims & Hent); try lia.
  exists phi. split; [exact Hrun|]. split; [exact Hdims|].
  injection Hdims as HR HC.
  intros i Hi. split; intros j Hj.
  - rewrite At_done by lia. rewrite Hent by lia. unfold phi_entry.
    replace (j - 1 <? na) with true by lia.
    replace (j - 1 + 1) with j by lia. reflexivity.
  - rewrite At_done by lia. rewrite Hent by lia. unfold phi_entry.
    replace (na + j <? na) with false by lia.
    replace (na + j <=? na + nb) with true by lia.
    replace (na + j - na) with j by lia. reflexivity.
Qed.

Lemma constructPhiMatrix_any_window_witness :
  exists phi,
    constructPhiMatrix [1; 2; 3]%float [10; 20; 30]%float 2 1 0 =
      Done (Some phi) /\
    Dims phi = (3, 4) /\
    At phi 0 0 = Done 0%float /\ At phi 1 0 = Done (-1)%float /\
    At phi 0 3 = Done 0%float.
Proof.
  destruct (constructPhiMatrix_any_window
              [1; 2; 3]%float [10; 20; 30]%float 2 1 0)
    as (phi & Hrun & Hdims & Hent); [reflexivity | lia | lia | cbn; lia |].
  exists phi. split; [exact Hrun|]. split; [exact Hdims|].
  destruct (Hent 0) as [Hv0 Hp0]; [cbn; lia|].
  destruct (Hent 1) as [Hv1 _]; [cbn; lia|].
  split; [exact (Hv0 1 ltac:(lia))|].
  split; [exact (Hv1 1 ltac:(lia)) | exact (Hp0 1 ltac:(lia))].
Defined.

(** X4.  The builder reads the input series at every original index: with an
    input series shorter than the value series it panics, it does not
    return nil. *)
Theorem constructPhiMatrix_short_inputs_panics (Y P : list float)
    (na nb m : Z) :
  len P < len Y -> m < len Y -> 0 <= nb ->
  constructPhiMatrix Y P na nb m = Panics.
Proof.
  intros HP Hm Hnb. unfold constructPhiMatrix.
  replace (len Y - m <=? 0) with false by lia.
  destruct (NewDense (len Y - m) (na + nb + 1)) as [phi0|]; cbn [bind];
    [|reflexivity].
  rewrite (for_range_reaches_panic _ 0 (len Y - m) (len Y - m - 1));
    [reflexivity | lia |].
  intros phi.
  destruct (fmake (na + nb + 1)) as [row0|]; cbn [bind]; [|reflexivity].
  destruct (phi_row_values Y na (len Y - m - 1 + m) row0) as [row1|];
    cbn [bind]; [|reflexivity].
  unfold phi_row_inputs.
  rewrite (for_range_reaches_panic _ 0 (nb + 1) 0); [reflexivity | lia |].
  intros row.
  replace (len Y - m - 1 + m - 0 >=? 0) with true
    by (pose proof (len_nonneg P); lia).
  unfold index, in_range.
  replace (len Y - m - 1 + m - 0 <? len P) with false by lia.
  rewrite andb_false_r. reflexivity.
Qed.

Lemma constructPhiMatrix_short_inputs_panics_witness :
  constructPhiMatrix [1; 2; 3]%float [10; 20]%float 1 0 1 = Panics.
Proof.
  apply (constructPhiMatrix_short_inputs_panics
           [1; 2; 3]%float [10; 20]%float 1 0 1); cbn; lia.
Defined.

Lemma seeded_shape (dataValues pl : list float) :
  seeded dataValues pl =
  firstn (length pl) dataValues
    ++ repeat 0%float (length pl - length dataValues).
Proof.
  unfold seeded, copy. rewrite repeat_length. f_equal.
  destruct (Nat.le_gt_cases (length pl) (length dataValues)) as [H | H].
  - rewrite skipn_all2 by (rewrite repeat_length; lia).
    replace (length pl - length dataValues)%nat with O by lia. reflexivity.
  - replace (length pl)
      with (length dataValues + (length pl - length dataValues))%nat at 1
      by lia.
    rewrite repeat_app, skipn_app, repeat_length, Nat.sub_diag.
    rewrite skipn_all2 by (rewrite repeat_length; lia). reflexivity.
Qed.

(** X5.  With an input axis of at most [m + 1] points nothing is predicted: the
    forecaster returns the history, cut or padded with zeros to the length
    of the axis, and never reads theta, which may be nil. *)
Theorem performPrediction_nothing_to_predict (dataValues pl : list float)
    (th : option Dense) (m na nb : Z) :
  len pl <= m + 1 ->
  performPrediction dataValues pl th m na nb =
  Done (firstn (length pl) dataValues
          ++ repeat 0%float (length pl - length dataValues)).
Proof.
  intros H. unfold performPrediction.
  rewrite make_done by apply len_nonneg. cbn [bind].
  rewrite for_range_empty by lia.
  replace (Z.to_nat (len pl)) with (length pl) by (unfold len; lia).
  fold (seeded dataValues pl). now rewrite seeded_shape.
Qed.

Lemma performPrediction_nothing_to_predict_witness :
  performPrediction [1; 2; 3; 4; 5; 6; 7; 8; 9; 10]%float [22; 23]%float
    None 1 2 1 = Done [1; 2]%float /\
  performPrediction [1]%float [22; 23; 24]%float None 2 2 1 =
    Done [1; 0; 0]%float.
Proof.
  split.
  - apply (performPrediction_nothing_to_predict
             [1; 2; 3; 4; 5; 6; 7; 8; 9; 10]%float [22; 23]%float None 1 2 1).
    cbn; lia.
  - apply (performPrediction_nothing_to_predict
             [1]%float [22; 23; 24]%float None 2 2 1).
    cbn; lia.
Defined.

(** X6.  The coefficient vector theta that reaches a prediction step must have
    [na + nb + 1] rows: with a nil or a shorter theta the forecaster
    panics as soon as there is an index above [m] to predict. *)
Theorem performPrediction_short_theta_panics (dataValues pl : list float)
    (th : option Dense) (m na nb : Z) :
  0 <= nb <= m + 1 -> m + 1 < len pl ->
  match th with
  | Some theta => Rows theta <= na + nb
  | None => True
  end ->
  performPrediction dataValues pl th m na nb = Panics.
Proof.
  intros Hnb HL Hth. unfold performPrediction.
  rewrite make_done by apply len_nonneg. cbn [bind].
  apply (for_range_reaches_panic _ (m + 1) (len pl) (m + 1)); [lia|].
  intros yAp. cbn zeta.
  destruct (ar_part yAp th na (m + 1) 0%float) as [s|]; cbn [bind];
    [|reflexivity].
  unfold input_part.
  rewrite (for_range_reaches_panic _ 0 (nb + 1) nb); [reflexivity | lia |].
  intros sum. replace (m + 1 - nb >=? 0) with true by lia.
  destruct (fidx pl (m + 1 - nb)) as [p|]; cbn [bind]; [|reflexivity].
  assert (Hat : At_ptr th (na + nb) 0 = Panics).
  { destruct th as [theta|]; [|reflexivity]. cbn [At_ptr]. unfold At.
    replace (na + nb <? Rows theta) with false by lia.
    now rewrite andb_false_r. }
  now rewrite Hat.
Qed.

Lemma performPrediction_short_theta_panics_witness :
  performPrediction [1; 2; 3]%float [10; 20; 30]%float
    (Some (mkDense 3 1 [[0.5]; [0.5]; [1]]%float)) 1 2 1 = Panics /\
  performPrediction [1; 2; 3]%float [10; 20; 30]%float None 1 2 1 = Panics.
Proof.
  split.
  - apply (performPrediction_short_theta_panics [1; 2; 3]%float
             [10; 20; 30]%float
             (Some (mkDense 3 1 [[0.5]; [0.5]; [1]]%float)) 1 2 1);
      cbn; lia.
  - apply (performPrediction_short_theta_panics [1; 2; 3]%float
             [10; 20; 30]%float None 1 2 1); cbn; try lia; exact I.
Defined.

(* ================================================================== *)
(** ** Further properties of the code: the estimator *)

Section EstimatorEdges.

Variable inverse_of : Dense -> list (list float) * option error.

Lemma calculateTheta_panics (phi : Dense) (dataValues : list float) :
  Rows phi < 1 \/ Cols phi < 1 \/ len dataValues < Rows phi ->
  calculateTheta inverse_of phi dataValues = Panics.
Proof.
  intros H. unfold calculateTheta, Dims, make, slice_from.
  destruct (Rows phi <? 0) eqn:Hneg; [reflexivity|]. cbn [bind].
  destruct ((0 <=? len dataValues - Rows phi) &&
            (len dataValues - Rows phi <=? len dataValues)) eqn:Hs;
    [|reflexivity].
  cbn [bind]. apply andb_true_iff in Hs. destruct Hs as [Hs _].
  unfold NewDense.
  destruct (Cols phi <=? 0) eqn:Hc; [reflexivity|]. cbn [orb bind].
  unfold Mul at 1. cbn [Rows Cols T]. rewrite !Z.eqb_refl. cbn [andb bind].
  unfold NewColumn.
  replace (Rows phi <=? 0) with true by lia. reflexivity.
Qed.

Lemma calculateTheta_returns (phi : Dense) (dataValues : list float)
    (th : option Dense) (err : option error) :
  calculateTheta inverse_of phi dataValues = Done (th, err) ->
  match th with
  | Some theta =>
      theta = theta_of inverse_of phi dataValues /\
      (err = None \/ err = Some ErrSingular)
  | None =>
      exists e, err = Some (Wrapf "matrix inversion failed: %w" e) /\
                is_ErrSingular e = false
  end.
Proof.
  intros Hrun.
  destruct (Z.lt_ge_cases (Rows phi) 1) as [H1 | H1];
    [rewrite calculateTheta_panics in Hrun by auto; discriminate|].
  destruct (Z.lt_ge_cases (Cols phi) 1) as [H2 | H2];
    [rewrite calculateTheta_panics in Hrun by auto; discriminate|].
  destruct (Z.lt_ge_cases (len dataValues) (Rows phi)) as [H3 | H3];
    [rewrite calculateTheta_panics in Hrun by auto; discriminate|].
  rewrite calculateTheta_spec in Hrun by lia.
  destruct (fatal (snd (inverse_of (normal_matrix phi)))) as [e|] eqn:Hf.
  - injection Hrun as <- <-. exists e. split; [reflexivity|].
    unfold fatal in Hf.
    destruct (snd (inverse_of (normal_matrix phi))) as [e0|]; [|discriminate].
    destruct (is_ErrSingular e0) eqn:He; [discriminate|].
    injection Hf as <-. exact He.
  - injection Hrun as <- <-. split; [reflexivity|].
    now apply fatal_none_cases.
Qed.

(** X7.  The estimator panics exactly when the matrix has an empty dimension or
    more rows than the series has values (the slice of the last rows does
    not exist); in every other case it returns. *)
Theorem calculateTheta_panics_iff (phi : Dense) (dataValues : list float) :
  calculateTheta inverse_of phi dataValues = Panics <->
  Rows phi < 1 \/ Cols phi < 1 \/ len dataValues < Rows phi.
Proof.
  split; [|apply calculateTheta_panics].
  intros Hp.
  destruct (Z.lt_ge_cases (Rows phi) 1) as [H1 | H1]; [auto|].
  destruct (Z.lt_ge_cases (Cols phi) 1) as [H2 | H2]; [auto|].
  destruct (Z.lt_ge_cases (len dataValues) (Rows phi)) as [H3 | H3]; [auto|].
  rewrite calculateTheta_spec in Hp by lia. discriminate.
Qed.

(** X8.  What the estimator returns is one of two things: coefficients, a
    column with one row per column of the matrix, with no error or with
    [mat.ErrSingular]; or no coefficients and a wrapped error that is not
    [mat.ErrSingular].  It never returns neither coefficients nor an
    error. *)
Theorem calculateTheta_result_shape (phi : Dense) (dataValues : list float) :
  match calculateTheta inverse_of phi dataValues with
  | Done (Some theta, err) =>
      Dims theta = (Cols phi, 1) /\ (err = None \/ err = Some ErrSingular)
  | Done (None, err) =>
      exists e, err = Some (Wrapf "matrix inversion failed: %w" e) /\
                is_ErrSingular e = false
  | Panics => Rows phi < 1 \/ Cols phi < 1 \/ len dataValues < Rows phi
  end.
Proof.
  destruct (calculateTheta inverse_of phi dataValues) as [[th err]|] eqn:Hrun.
  - apply calculateTheta_returns in Hrun.
    destruct th as [theta|]; [|exact Hrun].
    destruct Hrun as [-> Herr]. split; [reflexivity | exact Herr].
  - destruct (Z.lt_ge_cases (Rows phi) 1) as [H1 | H1]; [auto|].
    destruct (Z.lt_ge_cases (Cols phi) 1) as [H2 | H2]; [auto|].
    destruct (Z.lt_ge_cases (len dataValues) (Rows phi)) as [H3 | H3]; [auto|].
    rewrite calculateTheta_spec in Hrun by lia. discriminate.
Qed.

End EstimatorEdges.

(* ================================================================== *)
(** ** Further properties of the code: the predictor *)

Lemma assign_length {A : Type} (s s' : list A) (i : Z) (v : A) :
  assign s i v = Done s' -> length s' = length s.
Proof.
  unfold assign. destruct (in_range s i); [|discriminate].
  intros H; injection H as <-. apply length_update.
Qed.

Lemma separate_length (rows : list (list float)) (i : Z)
    (dv tv dv' tv' : list float) :
  separate rows i dv tv = Done (dv', tv') ->
  length dv' = length dv /\ length tv' = length tv.
Proof.
  revert i dv tv; induction rows as [|row rows IH]; intros i dv tv H.
  - injection H as <- <-. split; reflexivity.
  - cbn [separate] in H.
    destruct (fidx row 0) as [y|]; cbn [bind] in H; [|discriminate].
    destruct (assign dv i y) as [dv1|] eqn:Hd; cbn [bind] in H;
      [|discriminate].
    destruct (fidx row 1) as [q|]; cbn [bind] in H; [|discriminate].
    destruct (assign tv i q) as [tv1|] eqn:Ht; cbn [bind] in H;
      [|discriminate].
    apply IH in H. apply assign_length in Hd, Ht. lia.
Qed.

Lemma separate_short_row_panics (rows : list (list float)) (i : Z)
    (dv tv : list float) :
  Exists (fun row => len row < 2) rows -> separate rows i dv tv = Panics.
Proof.
  intros H. revert i dv tv.
  induction H as [row rows Hrow | row rows _ IH]; intros i dv tv;
    cbn [separate].
  - destruct (fidx row 0) as [y|]; cbn [bind]; [|reflexivity].
    destruct (assign dv i y) as [dv1|]; cbn [bind]; [|reflexivity].
    unfold index, in_range. replace (1 <? len row) with false by lia.
    rewrite andb_false_r. reflexivity.
  - destruct (fidx row 0) as [y|]; cbn [bind]; [|reflexivity].
    destruct (assign dv i y) as [dv1|]; cbn [bind]; [|reflexivity].
    destruct (fidx row 1) as [q|]; cbn [bind]; [|reflexivity].
    destruct (assign tv i q) as [tv1|]; cbn [bind]; [|reflexivity].
    apply IH.
Qed.

Lemma constructPhiMatrix_not_nil (Y P : list float) (na nb m : Z) :
  m < len Y -> constructPhiMatrix Y P na nb m <> Done None.
Proof.
  intros Hm. unfold constructPhiMatrix.
  replace (len Y - m <=? 0) with false by lia.
  destruct (NewDense (len Y - m) (na + nb + 1)) as [phi0|]; cbn [bind];
    [|discriminate].
  destruct (for_range 0 (len Y - m) _ phi0) as [phi|]; cbn [bind];
    discriminate.
Qed.

Lemma extendTimeValues_truncates (timeValues : list float)
    (numToPredict : Z) (stepSize : float) :
  1 <= len timeValues -> - len timeValues <= numToPredict <= 0 ->
  extendTimeValues timeValues numToPredict stepSize =
  Done (firstn (Z.to_nat (len timeValues + numToPredict)) timeValues).
Proof.
  intros HN HH. unfold extendTimeValues.
  rewrite int_add_nonpos by lia.
  rewrite make_done by lia. cbn [bind].
  rewrite index_done by lia. cbn [bind].
  rewrite for_range_empty by lia. f_equal.
  unfold copy. rewrite repeat_length.
  rewrite skipn_all2 by (rewrite repeat_length; unfold len in *; lia).
  apply app_nil_r.
Qed.

Lemma design_dims (p : Predictor) (phi : Dense) :
  0 <= AutoregressiveLags (Params p) -> 0 <= ExternalInputLags (Params p) ->
  Z.max (AutoregressiveLags (Params p)) (ExternalInputLags (Params p))
    < len (Data p) ->
  design p = Done (Some phi) ->
  Dims phi =
  (len (Data p)
   - Z.max (AutoregressiveLags (Params p)) (ExternalInputLags (Params p)),
   AutoregressiveLags (Params p) + ExternalInputLags (Params p) + 1).
Proof.
  intros Hna Hnb Hlong Hphi. unfold design in Hphi.
  pose proof (len_values (Data p)) as HlenY.
  pose proof (len_inputs (Data p)) as HlenP.
  destruct (constructPhiMatrix_rows (values (Data p)) (inputs (Data p))
              (AutoregressiveLags (Params p)) (ExternalInputLags (Params p))
              (Z.max (AutoregressiveLags (Params p))
                 (ExternalInputLags (Params p))))
    as (phi' & Hphi' & Hdims & _); try lia.
  rewrite Hphi in Hphi'. injection Hphi' as <-.
  rewrite Hdims, HlenY. reflexivity.
Qed.

Section PredictorEdges.

Variable inverse_of : Dense -> list (list float) * option error.

(** The outcomes of [Predict], by the path it takes. *)
Lemma Predict_outcomes (p : Predictor) (numToPredict : Z) :
  let m := Z.max (AutoregressiveLags (Params p))
             (ExternalInputLags (Params p)) in
  Predict inverse_of p numToPredict = Panics \/
  (len (Data p) <= m /\
   Predict inverse_of p numToPredict =
   Done (None,
         Some (Errorf "not enough data points for prediction, need at least %d points"
                 [ArgInt (int_add m 1)]))) \/
  (m < len (Data p) /\
   exists e, Predict inverse_of p numToPredict =
             Done (None, Some (Wrapf "error calculating theta: %w" e))) \/
  (m < len (Data p) /\
   exists result err,
     Predict inverse_of p numToPredict = Done (Some result, err) /\
     fatal err = None).
Proof.
  intros m. unfold Predict. fold m.
  destruct (len (Data p) <=? m) eqn:E.
  { right; left. split; [lia | reflexivity]. }
  rewrite make_done by apply len_nonneg. cbn [bind].
  destruct (separate (Data p) 0 _ _) as [[dv tv]|] eqn:Hsep; cbn [bind];
    [|left; reflexivity].
  apply separate_length in Hsep. destruct Hsep as [Hdv Htv].
  rewrite repeat_length in Hdv, Htv.
  destruct (extendTimeValues tv numToPredict _) as [pl|]; cbn [bind];
    [|left; reflexivity].
  destruct (constructPhiMatrix dv tv _ _ m) as [[phi|]|] eqn:Hphi;
    cbn [bind]; [| |left; reflexivity].
  - destruct (calculateTheta inverse_of phi dv) as [[th err]|]; cbn [bind];
      [|left; reflexivity].
    destruct (fatal err) as [e|] eqn:Hf.
    + right; right; left. split; [lia|]. now exists e.
    + destruct (performPrediction dv pl th m _ _) as [yAp|]; cbn [bind];
        [|left; reflexivity].
      destruct (make [] (len pl)) as [r0|]; cbn [bind]; [|left; reflexivity].
      destruct (combine_result pl yAp r0) as [result|]; cbn [bind];
        [|left; reflexivity].
      right; right; right. split; [lia|]. now exists result, err.
  - exfalso. apply (constructPhiMatrix_not_nil dv tv
                      (AutoregressiveLags (Params p))
                      (ExternalInputLags (Params p)) m); [|exact Hphi].
    unfold len in *. lia.
Qed.

(** The run of [Predict] on a series that is long enough, for any horizon
    that the time axis extender accepts. *)
Lemma Predict_run_axis (p : Predictor) (numToPredict : Z) (pl : list float) :
  let na := AutoregressiveLags (Params p) in
  let nb := ExternalInputLags (Params p) in
  Forall (fun row => 2 <= len row) (Data p) ->
  0 <= na -> 0 <= nb -> Z.max na nb < len (Data p) ->
  extendTimeValues (inputs (Data p)) numToPredict (StepSize (Params p)) =
    Done pl ->
  exists phi,
    design p = Done (Some phi) /\
    (forall e, fatal (snd (inverse_of (normal_matrix phi))) = Some e ->
       Predict inverse_of p numToPredict =
       Done (None,
             Some (Wrapf "error calculating theta: %w"
                     (Wrapf "matrix inversion failed: %w" e)))) /\
    (fatal (snd (inverse_of (normal_matrix phi))) = None ->
       exists yAp,
         performPrediction (values (Data p)) pl
           (Some (theta_of inverse_of phi (values (Data p))))
           (Z.max na nb) na nb = Done yAp /\
         len yAp = len pl /\
         Predict inverse_of p numToPredict =
         Done (Some (pairs pl yAp), snd (inverse_of (normal_matrix phi)))).
Proof.
  intros na nb Hrows Hna Hnb Hlong Hpl.
  pose proof (len_values (Data p)) as HlenY.
  pose proof (len_inputs (Data p)) as HlenP.
  destruct (constructPhiMatrix_rows (values (Data p)) (inputs (Data p)) na nb
              (Z.max na nb)) as (phi & Hphi & Hdims & _); try lia.
  injection Hdims as HR HC.
  exists phi. split; [exact Hphi|].
  assert (Hhead : forall k,
    (r <- calculateTheta inverse_of phi (values (Data p)) ;;
     let '(th, err) := r in
     match fatal err with
     | Some e => Done (None, Some (Wrapf "error calculating theta: %w" e))
     | None =>
         yAp <- performPrediction (values (Data p)) pl th (Z.max na nb) na nb ;;
         result <- make [] (len pl) ;;
         result <- combine_result pl yAp result ;;
         Done (Some result, err)
     end) = k ->
    Predict inverse_of p numToPredict = k).
  { intros k <-. unfold Predict. fold na nb.
    replace (len (Data p) <=? Z.max na nb) with false by lia.
    rewrite make_done by apply len_nonneg. cbn [bind].
    replace (Z.to_nat (len (Data p))) with (length (Data p))
      by (unfold len; lia).
    rewrite separate_columns by assumption. cbn [bind].
    rewrite Hpl. cbn [bind]. rewrite Hphi. cbn [bind]. reflexivity. }
  rewrite calculateTheta_spec in Hhead by lia. cbn [bind] in Hhead.
  split.
  - intros e He. apply Hhead. rewrite He. reflexivity.
  - intros Hok.
    destruct (performPrediction_spec (values (Data p)) pl
                (theta_of inverse_of phi (values (Data p)))
                (Z.max na nb) na nb) as (yAp & Hrun & Hlen & _);
      try lia.
    { cbn [theta_of product inverse_matrix normal_matrix T Rows]. lia. }
    { cbn. lia. }
    exists yAp. split; [exact Hrun|]. split; [exact Hlen|].
    apply Hhead. rewrite Hok.
    destruct (fatal_none_cases _ Hok) as [-> | ->]; cbn [fatal is_ErrSingular];
      rewrite Hrun; cbn [bind];
      (rewrite make_done by apply len_nonneg); cbn [bind];
      (rewrite combine_result_spec by assumption); reflexivity.
Qed.

(** X9.  [Predict] does not validate the rows: once the series is long enough,
    a row with fewer than two entries makes it panic. *)
Theorem Predict_short_row_panics (p : Predictor) (numToPredict : Z) :
  Z.max (AutoregressiveLags (Params p)) (ExternalInputLags (Params p))
    < len (Data p) ->
  Exists (fun row => len row < 2) (Data p) ->
  Predict inverse_of p numToPredict = Panics.
Proof.
  intros Hlong Hrow. unfold Predict.
  replace (len (Data p) <=? Z.max _ _) with false by lia.
  rewrite make_done by apply len_nonneg. cbn [bind].
  now rewrite separate_short_row_panics.
Qed.

(** X10.  [Predict] does not validate the horizon: below minus the length of a
    series that is long enough, it panics. *)
Theorem Predict_horizon_below_length_panics (p : Predictor)
    (numToPredict : Z) :
  Z.max (AutoregressiveLags (Params p)) (ExternalInputLags (Params p))
    < len (Data p) ->
  numToPredict < - len (Data p) ->
  Predict inverse_of p numToPredict = Panics.
Proof.
  intros Hlong HH. unfold Predict.
  replace (len (Data p) <=? Z.max _ _) with false by lia.
  rewrite make_done by apply len_nonneg. cbn [bind].
  destruct (separate (Data p) 0 _ _) as [[dv tv]|] eqn:Hsep; cbn [bind];
    [|reflexivity].
  apply separate_length in Hsep. destruct Hsep as [_ Htv].
  rewrite repeat_length in Htv.
  unfold extendTimeValues, make.
  rewrite int_add_nonpos by (pose proof (len_nonneg tv); unfold len in *; lia).
  replace (len tv + numToPredict <? 0) with true
    by (unfold len in *; lia).
  reflexivity.
Qed.

(** X11.  A horizon between minus the length and zero is accepted: the forecast
    is cut to the first [N + H] rows, with their historical inputs. *)
Theorem Predict_negative_horizon_truncates (data : list (list float))
    (params : ModelParameters) (p : Predictor) (H : Z) :
  NewPredictor data params = (Some p, None) ->
  Forall (fun row => 2 <= len row) data ->
  Z.max (AutoregressiveLags params) (ExternalInputLags params) < len data ->
  - len data <= H <= 0 ->
  fatal (inversion_error inverse_of p) = None ->
  exists result,
    Predict inverse_of p H = Done (Some result, inversion_error inverse_of p) /\
    len result = len data + H /\
    forall i, 0 <= i < len data + H ->
      entry (nth (Z.to_nat i) result []) 0 = entry (inputs data) i.
Proof.
  intros Hnew Hrows Hlong HH Hok.
  destruct (NewPredictor_inv data params p Hnew) as (-> & Hna & Hnb).
  pose proof (len_inputs data) as HlenP.
  set (pl := firstn (Z.to_nat (len (inputs data) + H)) (inputs data)).
  assert (Hlpl : len pl = len data + H).
  { unfold pl, len in *. rewrite length_firstn. lia. }
  destruct (Predict_run_axis (mkPredictor data params) H pl)
    as (phi & Hphi & _ & Hgood); cbn [Data Params] in *;
    try assumption; try lia.
  { apply extendTimeValues_truncates; lia. }
  unfold inversion_error in *. rewrite Hphi in *.
  destruct (Hgood Hok) as (yAp & _ & Hlen & Hrun).
  exists (pairs pl yAp). split; [exact Hrun|].
  rewrite len_pairs. split; [exact Hlpl|].
  intros i Hi. rewrite nth_pairs by lia. cbn.
  unfold entry, pl. rewrite nth_firstn.
  replace (Z.to_nat i <? Z.to_nat (len (inputs data) + H))%nat with true
    by (symmetry; apply Nat.ltb_lt; lia).
  reflexivity.
Qed.

(** X12.  The error "failed to construct phi matrix" is never returned: an
    error that [Predict] returns as [fmt.Errorf] made it from a format
    without a wrapped error is the one of the length test, on a series of
    at most [m] rows.  That test has already excluded the only case in
    which the builder returns nil. *)
Theorem Predict_never_reports_phi_failure (p : Predictor) (numToPredict : Z) :
  match Predict inverse_of p numToPredict with
  | Done (_, Some (Errorf format args)) =>
      format = "not enough data points for prediction, need at least %d points"%string /\
      len (Data p) <=
        Z.max (AutoregressiveLags (Params p)) (ExternalInputLags (Params p))
  | _ => True
  end.
Proof.
  destruct (Predict_outcomes p numToPredict)
    as [H | [[Hs H] | [[_ (e & H)] | [_ (result & err & H & Hf)]]]];
    rewrite H; try exact I.
  - split; [reflexivity | exact Hs].
  - destruct (fatal_none_cases _ Hf) as [-> | ->]; exact I.
Qed.

(** X13.  Whenever [Predict] returns, either it returns a result, with no
    error or with [mat.ErrSingular], or it returns no result and an error
    that is not [mat.ErrSingular]: it never returns neither a result nor an
    error, and never a result with another error. *)
Theorem Predict_result_or_error (p : Predictor) (numToPredict : Z) :
  match Predict inverse_of p numToPredict with
  | Done (Some _, err) => err = None \/ err = Some ErrSingular
  | Done (None, err) => exists e, err = Some e /\ is_ErrSingular e = false
  | Panics => True
  end.
Proof.
  destruct (Predict_outcomes p numToPredict)
    as [H | [[_ H] | [[_ (e & H)] | [_ (r & err & H & Hf)]]]];
    rewrite H; try exact I.
  - eexists; split; reflexivity.
  - eexists; split; reflexivity.
  - now apply fatal_none_cases.
Qed.


(** X15.  The first [m + 1] rows of a forecast restate the data: the historical
    input with the historical value, for every horizon [H >= 0] whose
    [N + H] rows fit an allocation. *)
Theorem Predict_restates_history (data : list (list float))
    (params : ModelParameters) (p : Predictor) (H : Z) :
  NewPredictor data params = (Some p, None) ->
  Forall (fun row => 2 <= len row) data ->
  Z.max (AutoregressiveLags params) (ExternalInputLags params) < len data ->
  0 <= H -> 24 * (len data + H) <= maxAlloc ->
  fatal (inversion_error inverse_of p) = None ->
  exists result,
    Predict inverse_of p H = Done (Some result, inversion_error inverse_of p) /\
    forall i,
      0 <= i <= Z.max (AutoregressiveLags params) (ExternalInputLags params) ->
      nth (Z.to_nat i) result [] = [entry (inputs data) i; entry (values data) i].
Proof.
  intros Hnew Hrows Hlong HH Hfit Hok.
  apply maxAlloc_fits in Hfit; [|lia].
  destruct (NewPredictor_inv data params p Hnew) as (-> & Hna & Hnb).
  pose proof (len_inputs data) as HlenP.
  pose proof (len_values data) as HlenY.
  destruct (extendTimeValues_spec (inputs data) H (StepSize params))
    as (pl & Hpl & Hlpl & Hold & _); try lia.
  destruct (Predict_run_axis (mkPredictor data params) H pl)
    as (phi & Hphi & _ & Hgood); cbn [Data Params] in *;
    try assumption; try lia.
  unfold inversion_error in *. rewrite Hphi in *.
  destruct (Hgood Hok) as (yAp & Hpred & Hlen & Hrun).
  destruct (performPrediction_spec (values data) pl
              (theta_of inverse_of phi (values data))
              (Z.max (AutoregressiveLags params) (ExternalInputLags params))
              (AutoregressiveLags params) (ExternalInputLags params))
    as (yAp' & Hpred' & _ & Hkeep & _); try lia.
  { cbn [theta_of product inverse_matrix normal_matrix T Rows].
    pose proof (design_dims (mkPredictor data params) phi) as Hdims.
    cbn [Data Params] in Hdims.
    specialize (Hdims ltac:(lia) ltac:(lia) ltac:(lia) Hphi).
    injection Hdims as _ HC. lia. }
  { cbn. lia. }
  rewrite Hpred in Hpred'. injection Hpred' as <-.
  exists (pairs pl yAp). split; [exact Hrun|].
  intros i Hi. rewrite nth_pairs by lia.
  rewrite Hold by lia. rewrite Hkeep by lia.
  rewrite entry_seeded by lia. reflexivity.
Qed.

(** X16.  Above index [m], every value of a forecast is the autoregressive
    combination, with the estimated coefficients, of the values before it
    in the same forecast and of the inputs of the extended axis, for every
    horizon [H >= 0] whose [N + H] rows fit an allocation. *)
Theorem Predict_forecast_recurrence (data : list (list float))
    (params : ModelParameters) (p : Predictor) (H : Z) :
  NewPredictor data params = (Some p, None) ->
  Forall (fun row => 2 <= len row) data ->
  Z.max (AutoregressiveLags params) (ExternalInputLags params) < len data ->
  0 <= H -> 24 * (len data + H) <= maxAlloc ->
  fatal (inversion_error inverse_of p) = None ->
  exists pl yAp phi,
    design p = Done (Some phi) /\
    Predict inverse_of p H =
      Done (Some (pairs pl yAp), inversion_error inverse_of p) /\
    len pl = len data + H /\ len yAp = len data + H /\
    forall i,
      Z.max (AutoregressiveLags params) (ExternalInputLags params) + 1 <= i
        < len data + H ->
      entry yAp i =
      recurrence (theta_of inverse_of phi (values data)) yAp pl
        (AutoregressiveLags params) (ExternalInputLags params) i.
Proof.
  intros Hnew Hrows Hlong HH Hfit Hok.
  apply maxAlloc_fits in Hfit; [|lia].
  destruct (NewPredictor_inv data params p Hnew) as (-> & Hna & Hnb).
  pose proof (len_inputs data) as HlenP.
  pose proof (len_values data) as HlenY.
  destruct (extendTimeValues_spec (inputs data) H (StepSize params))
    as (pl & Hpl & Hlpl & _); try lia.
  destruct (Predict_run_axis (mkPredictor data params) H pl)
    as (phi & Hphi & _ & Hgood); cbn [Data Params] in *;
    try assumption; try lia.
  unfold inversion_error in *. rewrite Hphi in *.
  destruct (Hgood Hok) as (yAp & Hpred & Hlen & Hrun).
  destruct (performPrediction_spec (values data) pl
              (theta_of inverse_of phi (values data))
              (Z.max (AutoregressiveLags params) (ExternalInputLags params))
              (AutoregressiveLags params) (ExternalInputLags params))
    as (yAp' & Hpred' & _ & _ & Hrec); try lia.
  { cbn [theta_of product inverse_matrix normal_matrix T Rows].
    pose proof (design_dims (mkPredictor data params) phi) as Hdims.
    cbn [Data Params] in Hdims.
    specialize (Hdims ltac:(lia) ltac:(lia) ltac:(lia) Hphi).
    injection Hdims as _ HC. lia. }
  { cbn. lia. }
  rewrite Hpred in Hpred'. injection Hpred' as <-.
  exists pl, yAp, phi. split; [reflexivity|]. split; [exact Hrun|].
  split; [lia|]. split; [lia|].
  intros i Hi. apply Hrec. lia.
Qed.

End PredictorEdges.

Lemma Predict_short_row_panics_witness :
  Predict (inverse_2x2 ErrSingular)
    (mkPredictor [[1; 0]; [2]; [4; 2]]%float (mkModelParameters 1 0 1%float))
    2 = Panics.
Proof.
  apply (Predict_short_row_panics (inverse_2x2 ErrSingular)
           (mkPredictor [[1; 0]; [2]; [4; 2]]%float
              (mkModelParameters 1 0 1%float)) 2).
  - cbn; lia.
  - apply Exists_cons_tl, Exists_cons_hd. cbn; lia.
Defined.

Lemma Predict_horizon_below_length_panics_witness :
  Predict (inverse_2x2 ErrSingular)
    (mkPredictor [[1; 0]; [2; 1]; [4; 2]]%float
       (mkModelParameters 1 0 1%float)) (-4) = Panics.
Proof.
  apply (Predict_horizon_below_length_panics (inverse_2x2 ErrSingular)
           (mkPredictor [[1; 0]; [2; 1]; [4; 2]]%float
              (mkModelParameters 1 0 1%float)) (-4)); cbn; lia.
Defined.

Lemma Predict_negative_horizon_truncates_witness :
  exists result,
    Predict (inverse_2x2 ErrSingular)
      (mkPredictor [[1; 0]; [2; 1]; [4; 2]; [8; 3]]%float
         (mkModelParameters 1 0 1%float)) (-1) = Done (Some result, None) /\
    len result = 3.
Proof.
  destruct (Predict_negative_horizon_truncates (inverse_2x2 ErrSingular)
              [[1; 0]; [2; 1]; [4; 2]; [8; 3]]%float
              (mkModelParameters 1 0 1%float)
              (mkPredictor [[1; 0]; [2; 1]; [4; 2]; [8; 3]]%float
                 (mkModelParameters 1 0 1%float)) (-1))
    as (result & Hrun & Hlen & _).
  - reflexivity.
  - repeat constructor; cbn; lia.
  - cbn; lia.
  - cbn; lia.
  - vm_compute; reflexivity.
  - exists result. split; [exact Hrun | exact Hlen].
Defined.


Lemma Predict_restates_history_witness :
  exists result,
    Predict (inverse_2x2 ErrSingular)
      (mkPredictor [[1; 0]; [2; 1]; [4; 2]; [8; 3]]%float
         (mkModelParameters 1 0 1%float)) 2 = Done (Some result, None) /\
    nth 0 result [] = [0; 1]%float /\ nth 1 result [] = [1; 2]%float.
Proof.
  destruct (Predict_restates_history (inverse_2x2 ErrSingular)
              [[1; 0]; [2; 1]; [4; 2]; [8; 3]]%float
              (mkModelParameters 1 0 1%float)
              (mkPredictor [[1; 0]; [2; 1]; [4; 2]; [8; 3]]%float
                 (mkModelParameters 1 0 1%float)) 2)
    as (result & Hrun & Hhist).
  - reflexivity.
  - repeat constructor; cbn; lia.
  - cbn; lia.
  - lia.
  - cbn; lia.
  - vm_compute; reflexivity.
  - exists result. split; [exact Hrun|].
    split; [apply (Hhist 0) | apply (Hhist 1)]; cbn; lia.
Defined.

Lemma Predict_forecast_recurrence_witness :
  exists pl yAp phi,
    design (mkPredictor [[1; 0]; [2; 1]; [4; 2]; [8; 3]]%float
              (mkModelParameters 1 0 1%float)) = Done (Some phi) /\
    Predict (inverse_2x2 ErrSingular)
      (mkPredictor [[1; 0]; [2; 1]; [4; 2]; [8; 3]]%float
         (mkModelParameters 1 0 1%float)) 2 =
      Done (Some (pairs pl yAp), None) /\
    entry yAp 4 =
    recurrence (theta_of (inverse_2x2 ErrSingular) phi [1; 2; 4; 8]%float)
      yAp pl 1 0 4.
Proof.
  destruct (Predict_forecast_recurrence (inverse_2x2 ErrSingular)
              [[1; 0]; [2; 1]; [4; 2]; [8; 3]]%float
              (mkModelParameters 1 0 1%float)
              (mkPredictor [[1; 0]; [2; 1]; [4; 2]; [8; 3]]%float
                 (mkModelParameters 1 0 1%float)) 2)
    as (pl & yAp & phi & Hphi & Hrun & _ & _ & Hrec).
  - reflexivity.
  - repeat constructor; cbn; lia.
  - cbn; lia.
  - lia.
  - cbn; lia.
  - vm_compute; reflexivity.
  - exists pl, yAp, phi. split; [exact Hphi|]. split; [exact Hrun|].
    apply (Hrec 4). cbn; lia.
Defined.

(* ================================================================== *)
(** ** Further properties of the code: the least-squares predictor *)

(** X17.  [NewLSPredictor] tests the step only: it returns an error exactly
    when [StepSize <= 0], and otherwise a predictor with the data and the
    parameters that were supplied, whatever the data are. *)
Theorem NewLSPredictor_error_iff (data : list (list float))
    (params : LS.LSModelParameters) :
  (snd (LS.NewLSPredictor data params) <> None <->
   (LS.StepSize params <=? 0)%float = true) /\
  match LS.NewLSPredictor data params with
  | (Some p, None) => LS.Data p = data /\ LS.Params p = params
  | (None, Some _) => True
  | _ => False
  end.
Proof.
  unfold LS.NewLSPredictor.
  destruct (LS.StepSize params <=? 0)%float; cbn.
  - split; [split; [reflexivity | discriminate] | exact I].
  - split; [split; [intros H; now contradiction H | discriminate]|].
    split; reflexivity.
Qed.

Lemma update_update_same {A : Type} (n : nat) (a b : A) (s : list A) :
  update n a (update n b s) = update n a s.
Proof.
  revert n; induction s as [|x s IH]; intros [|n]; simpl; auto.
  now rewrite IH.
Qed.

Lemma Set_done (m : Dense) (i j : Z) (v : float) :
  0 <= i < Rows m -> 0 <= j < Cols m ->
  LS.Set_ m i j v =
  Done (mkDense (Rows m) (Cols m)
          (update (Z.to_nat i)
             (update (Z.to_nat j) v (nth (Z.to_nat i) (Elems m) []))
             (Elems m))).
Proof.
  intros Hi Hj. unfold LS.Set_.
  replace ((0 <=? i) && (i <? Rows m) && (0 <=? j) && (j <? Cols m)) with true
    by (symmetry; rewrite !andb_true_iff; repeat split; lia).
  reflexivity.
Qed.

Lemma MulNew_done (a b : Dense) :
  Cols a = Rows b -> LS.MulNew a b = Done (product a b).
Proof. intros H. unfold LS.MulNew. rewrite H, Z.eqb_refl. reflexivity. Qed.

Lemma NewDense_done (r c : Z) :
  1 <= r -> 1 <= c ->
  NewDense r c =
  Done (mkDense r c (repeat (repeat 0%float (Z.to_nat c)) (Z.to_nat r))).
Proof.
  intros Hr Hc. unfold NewDense.
  replace ((r <=? 0) || (c <=? 0)) with false
    by (symmetry; apply orb_false_iff; split; lia).
  reflexivity.
Qed.

Lemma NewColumn_done (r : Z) (data : list float) :
  1 <= r -> len data = r -> NewColumn r data = Done (column r data).
Proof.
  intros Hr Hl. unfold NewColumn. rewrite Hl, Z.eqb_refl.
  replace (r <=? 0) with false by lia. reflexivity.
Qed.

Section LeastSquares.

Variable Pow : float -> float -> float.
Variable Cos : float -> float.
Variable DotUnitary : list float -> list float -> float.
Variable inverse_of : Dense -> list (list float) * option error.

Lemma MulNewT_done (a b : Dense) :
  Cols a = Cols b -> LS.MulNewT DotUnitary a b = Done (LS.productT DotUnitary a b).
Proof. intros H. unfold LS.MulNewT. rewrite H, Z.eqb_refl. reflexivity. Qed.

Lemma InverseNew_done (a : Dense) :
  Rows a = Cols a ->
  LS.InverseNew inverse_of a =
  Done (inverse_matrix inverse_of a, snd (inverse_of a)).
Proof. intros H. unfold LS.InverseNew. rewrite H, Z.eqb_refl. reflexivity. Qed.

(** The loops of the least-squares predictor fill the matrix of the basis
    functions [p^2, p, 1, cos p]. *)
Lemma fill_basis_spec (P : list float) :
  LS.fill_basis Pow Cos P
    (mkDense (len P) 4
       (repeat (repeat 0%float (Z.to_nat 4)) (Z.to_nat (len P)))) =
  Done (LS.basis Pow Cos P).
Proof.
  unfold LS.fill_basis.
  set (f := fun p : float => [Pow p 2; p; 1%float; Cos p]).
  pose (Inv := fun (i : Z) (A : Dense) =>
    Rows A = len P /\ Cols A = 4 /\ len (Elems A) = len P /\
    (forall r, 0 <= r < i ->
       nth (Z.to_nat r) (Elems A) [] = f (entry P r)) /\
    (forall r, i <= r < len P ->
       nth (Z.to_nat r) (Elems A) [] = [0; 0; 0; 0]%float)).
  destruct (for_range_inv Inv
    (fun i A =>
       p <- fidx P i ;;
       A <- LS.Set_ A i 0 (Pow p 2) ;;
       p <- fidx P i ;;
       A <- LS.Set_ A i 1 p ;;
       A <- LS.Set_ A i 2 1 ;;
       p <- fidx P i ;;
       LS.Set_ A i 3 (Cos p)) 0 (len P)
    (mkDense (len P) 4
       (repeat (repeat 0%float (Z.to_nat 4)) (Z.to_nat (len P)))))
    as (A & Hrun & HR & HC & HL & Hdone & _).
  - apply len_nonneg.
  - unfold Inv; cbn [Rows Cols Elems]. repeat split.
    + apply len_repeat, len_nonneg.
    + intros r Hr; lia.
    + intros r Hr. apply nth_repeat_lt. lia.
  - intros i A Hi (HR & HC & HL & Hdone & Htodo).
    rewrite index_done by lia. cbn [bind].
    fold (entry P i). set (p := entry P i).
    rewrite Set_done by lia. cbn [bind].
    rewrite Set_done by (cbn [Rows Cols]; lia). cbn [bind Rows Cols Elems].
    rewrite Set_done by (cbn [Rows Cols]; lia). cbn [bind Rows Cols Elems].
    rewrite Set_done by (cbn [Rows Cols]; lia). cbn [Rows Cols Elems].
    rewrite !nth_update_same
      by (rewrite ?length_update; unfold len in *; lia).
    rewrite !update_update_same. rewrite (Htodo i) by lia.
    eexists; split; [reflexivity|].
    unfold Inv; cbn [Rows Cols Elems]. repeat split; try assumption.
    + now rewrite len_update.
    + intros r Hr. destruct (Z.eq_dec r i) as [->|Hne].
      * rewrite nth_update_same by (unfold len in *; lia). reflexivity.
      * rewrite nth_update_other by lia. apply Hdone. lia.
    + intros r Hr. rewrite nth_update_other by lia. apply Htodo. lia.
  - rewrite Hrun. f_equal. unfold LS.basis. fold f.
    destruct A as [rA cA eA]. cbn [Rows Cols Elems] in *. subst rA cA.
    f_equal. apply (nth_ext _ _ [] []).
    + rewrite length_map. unfold len in HL. lia.
    + intros k Hk. rewrite <- (Nat2Z.id k).
      rewrite Hdone by (unfold len in *; lia).
      rewrite (nth_indep _ [] (f 0%float))
        by (rewrite length_map; unfold len in *; lia).
      rewrite (map_nth f). reflexivity.
Qed.

Lemma collect_spec (Pl : list float) (yAp : Dense) :
  Rows yAp = len Pl -> 1 <= Cols yAp ->
  exists result,
    LS.collect Pl yAp (repeat [] (Z.to_nat (len Pl))) = Done result /\
    len result = len Pl /\
    forall k, 0 <= k < len Pl ->
      nth (Z.to_nat k) result [] = [entry Pl k; elem yAp k 0].
Proof.
  intros HR HC. unfold LS.collect.
  pose (Inv := fun (i : Z) (r : list (list float)) =>
    len r = len Pl /\
    forall k, 0 <= k < i ->
      nth (Z.to_nat k) r [] = [entry Pl k; elem yAp k 0]).
  destruct (for_range_inv Inv
    (fun i result =>
       x <- fidx Pl i ;; y <- At yAp i 0 ;; assign result i [x; y])
    0 (len Pl) (repeat [] (Z.to_nat (len Pl))))
    as (r & Hrun & Hr & Hent).
  - apply len_nonneg.
  - split; [apply len_repeat, len_nonneg | intros k Hk; lia].
  - intros i r Hi (Hr & Hent).
    rewrite index_done by lia. cbn [bind].
    rewrite At_done by lia. cbn [bind].
    rewrite assign_done by lia.
    eexists; split; [reflexivity|]. split; [now rewrite len_update|].
    intros k Hk. destruct (Z.eq_dec k i) as [->|Hne].
    + rewrite nth_update_same by (unfold len in *; lia). reflexivity.
    + rewrite nth_update_other by lia. apply Hent; lia.
  - exists r. repeat split; assumption.
Qed.

(** X18.  The least-squares predictor has no tolerance for a singular matrix:
    every error of the inversion makes it return an empty sequence with the
    wrapped error.  Without an error it returns [N + H] pairs whose inputs
    are the historical inputs and then
    [lastHistoricalInput + k * StepSize] for [k = 1..H].  The horizon is
    [H >= 0], and the [N + H] rows of four values of the matrix of the
    extended axis fit an allocation. *)
Theorem LS_Predict_spec (p : LS.LSPredictor) (H : Z) :
  Forall (fun row => 2 <= len row) (LS.Data p) ->
  1 <= len (LS.Data p) -> 0 <= H ->
  32 * (len (LS.Data p) + H) <= maxAlloc ->
  match snd (inverse_of
               (normal_matrix (LS.basis Pow Cos (inputs (LS.Data p))))) with
  | Some e =>
      LS.Predict Pow Cos DotUnitary inverse_of p H =
      Done (Some [], Some (Wrapf "error inverting ATA matrix: %w" e))
  | None =>
      exists result,
        LS.Predict Pow Cos DotUnitary inverse_of p H = Done (Some result, None) /\
        len result = len (LS.Data p) + H /\
        (forall i, 0 <= i < len (LS.Data p) ->
           entry (nth (Z.to_nat i) result []) 0 =
           entry (inputs (LS.Data p)) i) /\
        (forall k, 1 <= k <= H ->
           entry (nth (Z.to_nat (len (LS.Data p) + k - 1)) result []) 0 =
           (entry (inputs (LS.Data p)) (len (LS.Data p) - 1)
            + float64 k * LS.StepSize (LS.Params p))%float)
  end.
Proof.
  intros Hrows HN HH Hfit.
  apply maxAlloc_fits in Hfit; [|lia].
  pose proof (len_inputs (LS.Data p)) as HlenP.
  pose proof (len_values (LS.Data p)) as HlenY.
  destruct (extendTimeValues_spec (inputs (LS.Data p)) H
              (LS.StepSize (LS.Params p)))
    as (Pl & HPl & HlPl & Hold & Hnext); try lia.
  set (A := LS.basis Pow Cos (inputs (LS.Data p))).
  assert (HA : Rows A = len (LS.Data p) /\ Cols A = 4)
    by (unfold A, LS.basis; cbn [Rows Cols]; split; [lia | reflexivity]).
  destruct HA as [HAR HAC].
  assert (Hhead :
    LS.Predict Pow Cos DotUnitary inverse_of p H =
    (ATA <- LS.MulNew (T A) A ;;
     r <- LS.InverseNew inverse_of ATA ;;
     let '(ATAInv, err) := r in
     match err with
     | Some e =>
         Done (Some [], Some (Wrapf "error inverting ATA matrix: %w" e))
     | None =>
         AtAInvAt <- LS.MulNewT DotUnitary ATAInv A ;;
         YMatrix <- NewColumn (len (values (LS.Data p))) (values (LS.Data p)) ;;
         th <- LS.MulNew AtAInvAt YMatrix ;;
         yAp <- LS.MulNew (LS.basis Pow Cos Pl) th ;;
         result <- make [] (len Pl) ;;
         result <- LS.collect Pl yAp result ;;
         Done (Some result, None)
     end)).
  { unfold LS.Predict.
    rewrite make_done by apply len_nonneg. cbn [bind].
    replace (Z.to_nat (len (LS.Data p))) with (length (LS.Data p))
      by (unfold len; lia).
    rewrite separate_columns by assumption. cbn [bind].
    rewrite HPl. cbn [bind].
    rewrite NewDense_done by lia. cbn [bind].
    rewrite fill_basis_spec. cbn [bind].
    rewrite NewDense_done by lia. cbn [bind].
    rewrite fill_basis_spec. cbn [bind]. reflexivity. }
  rewrite Hhead. clear Hhead.
  rewrite MulNew_done by (cbn [Rows Cols T]; reflexivity). cbn [bind].
  fold (normal_matrix A).
  rewrite InverseNew_done
    by (cbn [Rows Cols normal_matrix product T]; reflexivity).
  cbn [bind].
  destruct (snd (inverse_of (normal_matrix A))) as [e|]; [reflexivity|].
  rewrite MulNewT_done
    by (cbn [Rows Cols inverse_matrix normal_matrix product T]; lia).
  cbn [bind].
  rewrite NewColumn_done by lia. cbn [bind].
  rewrite MulNew_done by (cbn [Rows Cols LS.productT column]; lia).
  cbn [bind].
  rewrite MulNew_done
    by (cbn [Rows Cols product LS.productT inverse_matrix normal_matrix T
               LS.basis]; lia).
  cbn [bind].
  rewrite make_done by apply len_nonneg. cbn [bind].
  match goal with
  | |- context [LS.collect Pl ?y _] =>
      destruct (collect_spec Pl y) as (result & Hrun & Hlen & Hent)
  end.
  { reflexivity. }
  { cbn [Cols product column]. lia. }
  rewrite Hrun. cbn [bind].
  exists result. split; [reflexivity|]. split; [lia|]. split.
  - intros i Hi. rewrite Hent by lia. cbn. apply Hold. lia.
  - intros k Hk. rewrite Hent by lia. cbn.
    rewrite <- HlenP. apply Hnext. exact Hk.
Qed.

(** X19.  The least-squares predictor has no length test: on an empty series it
    panics, where [Predict] of the autoregressive predictor returns its
    insufficient-data error. *)
Theorem LS_Predict_empty_panics (params : LS.LSModelParameters) (H : Z) :
  LS.Predict Pow Cos DotUnitary inverse_of (LS.mkLSPredictor [] params) H =
  Panics.
Proof.
  unfold LS.Predict. cbn [LS.Data LS.Params len length Z.of_nat make Z.ltb
    Z.compare bind Z.to_nat repeat separate].
  now rewrite extendTimeValues_empty_panics_aux.
Qed.

End LeastSquares.

Lemma LS_Predict_spec_witness :
  LS.Predict square_pow series_cos scalar_product inverse_gauss
    (LS.mkLSPredictor [[1; 0]; [2; 1]]%float (LS.mkLSModelParameters 1%float))
    2 =
    Done (Some [],
          Some (Wrapf "error inverting ATA matrix: %w" (Condition infinity))) /\
  exists result,
    LS.Predict square_pow series_cos scalar_product inverse_gauss
      (LS.mkLSPredictor [[1; 0]; [3; 1]; [2; 2]; [5; 3]; [4; 4]]%float
         (LS.mkLSModelParameters 1%float)) 2 = Done (Some result, None) /\
    len result = 7 /\
    entry (nth 0 result []) 0 = 0%float /\
    entry (nth 6 result []) 0 = 6%float.
Proof.
  split.
  - refine (LS_Predict_spec square_pow series_cos scalar_product inverse_gauss
              (LS.mkLSPredictor [[1; 0]; [2; 1]]%float
                 (LS.mkLSModelParameters 1%float)) 2 _ _ _ _).
    + repeat constructor; cbn; lia.
    + cbn; lia.
    + lia.
    + cbn; lia.
  - pose proof (LS_Predict_spec square_pow series_cos scalar_product
                  inverse_gauss
                  (LS.mkLSPredictor [[1; 0]; [3; 1]; [2; 2]; [5; 3]; [4; 4]]%float
                     (LS.mkLSModelParameters 1%float)) 2) as W.
    replace (snd (inverse_gauss
                    (normal_matrix
                       (LS.basis square_pow series_cos
                          (inputs
                             (LS.Data
                                (LS.mkLSPredictor
                                   [[1; 0]; [3; 1]; [2; 2]; [5; 3]; [4; 4]]%float
                                   (LS.mkLSModelParameters 1%float))))))))
      with (@None error) in W by (vm_compute; reflexivity).
    destruct W as (result & Hrun & Hlen & Hold & Hnew).
    + repeat constructor; cbn; lia.
    + cbn; lia.
    + lia.
    + cbn; lia.
    + exists result. split; [exact Hrun|]. split; [exact Hlen|].
      split; [apply (Hold 0); cbn; lia | apply (Hnew 2); lia].
Defined.
